(** * QL-Relax: the BaseMachine state-machine core

    A shallow embedding of [BaseMachine/state_machine.py],
    [BaseMachine/action_utils.py], [BaseMachine/llm_helpers.py] and of the
    exception handling of [BaseMachine/agent_action_utils.py], followed by
    the properties of the execution loop, the retrying invoker and the
    sub-machine composer.

    Python objects that are mutated in place and may be shared (the message
    lists) live in an explicit heap; everything else is passed by value.
    Exceptions are values of an outcome type; the unbounded [while True] of
    [StateMachine.process] is driven by a fuel argument. *)

From Stdlib Require Import ZArith Lia.
From stdpp Require Import base strings list gmap.

Set Warnings "-register-all".

(** ** Python values *)

Inductive pyval : Type :=
| PNone
| PInt (z : Z)
| PFloat (repr : string)
| PStr (s : string)
| PTuple (items : list pyval)
| PList (items : list pyval)
| PDict (entries : list (string * pyval))
| PObj (id : nat).

(** [bool(v)]: the truth value Python gives to [v]. *)
Definition truthy (v : pyval) : bool :=
  match v with
  | PNone => false
  | PInt z => negb (z =? 0)%Z
  | PFloat r => negb (String.eqb r "0.0")
  | PStr s => negb (String.eqb s "")
  | PTuple [] | PList [] | PDict [] => false
  | PTuple _ | PList _ | PDict _ => true
  | PObj _ => true
  end.

(** [hash(v)] succeeds: lists and dicts are unhashable, a tuple is hashable
    when all its items are. *)
Fixpoint hashable (v : pyval) : bool :=
  match v with
  | PList _ | PDict _ => false
  | PTuple items => forallb hashable items
  | _ => true
  end.

(** [d.get(k)] on a dict literal kept in insertion order. *)
Fixpoint dict_get (d : list (string * pyval)) (k : string) : option pyval :=
  match d with
  | [] => None
  | (k', v) :: rest => if String.eqb k' k then Some v else dict_get rest k
  end.

(** [d[k] = v]. *)
Fixpoint dict_set (d : list (string * pyval)) (k : string) (v : pyval)
  : list (string * pyval) :=
  match d with
  | [] => [(k, v)]
  | (k', v') :: rest =>
      if String.eqb k' k then (k, v) :: rest else (k', v') :: dict_set rest k v
  end.

(** [needle in hay] on strings. *)
Fixpoint str_contains (needle hay : string) : bool :=
  if String.prefix needle hay then true
  else match hay with
       | EmptyString => false
       | String _ rest => str_contains needle rest
       end.

(** ** Exceptions and outcomes *)

(** The exception classes the code distinguishes. [BaseExceptionOnly] stands
    for the classes outside [Exception] (KeyboardInterrupt, SystemExit). *)
Inductive exn_class : Type :=
| BaseExceptionOnly
| RuntimeError
| ValueError
| TypeError
| KeyError
| IndexError
| AttributeError
| CLINotFoundError
| ProcessError
| OtherException.

Record exn : Type := { exn_cls : exn_class; exn_str : string }.

Definition isinstance_RuntimeError (e : exn) : bool :=
  match exn_cls e with RuntimeError => true | _ => false end.

Definition isinstance_Exception (e : exn) : bool :=
  match exn_cls e with BaseExceptionOnly => false | _ => true end.

Definition usage_limit_text : string := "Claude AI usage limit reached".

(** The condition under which [process] re-raises: a [RuntimeError] whose
    text contains the usage-limit marker. *)
Definition is_usage_limit (e : exn) : bool :=
  isinstance_RuntimeError e && str_contains usage_limit_text (exn_str e).

Inductive outcome (A : Type) : Type :=
| Ret (a : A)
| Raise (e : exn)
| Diverge.
Arguments Ret {A} a.
Arguments Raise {A} e.
Arguments Diverge {A}.

(** ** The world: heap of message lists, log, provider calls *)

Record Msg : Type := { role : string; content : pyval }.

Definition loc := nat.

Inductive level : Type := DEBUG | INFO | WARNING | ERROR.

Inductive log_text : Type :=
| UsageLimitInState (name : string)
| RuntimeErrorInState (name : string) (e : exn)
| ErrorInState (name : string) (e : exn)
| TracebackOf (e : exn)
| Text (s : string).

Record LogRecord : Type := { levelname : level; message : log_text }.

Record World : Type := {
  heap : list (list Msg);
  log : list LogRecord;
  calls : nat
}.

Definition logging (lv : level) (t : log_text) (w : World) : World :=
  {| heap := heap w;
     log := log w ++ [{| levelname := lv; message := t |}];
     calls := calls w |}.

(** The list object at [l]. *)
Definition deref (w : World) (l : loc) : list Msg := default [] (heap w !! l).

(** A fresh list object [[]]. *)
Definition alloc_list (w : World) : loc * World :=
  (length (heap w),
   {| heap := heap w ++ [[]]; log := log w; calls := calls w |}).

(** [lst.append(m)] on the list object at [l]. *)
Definition list_append (l : loc) (m : Msg) (w : World) : World :=
  {| heap := <[l := deref w l ++ [m]]> (heap w); log := log w; calls := calls w |}.

(** [lst.extend(other)]; [other] is read before [lst] is written, so
    extending a list by itself doubles it. *)
Definition list_extend (l other : loc) (w : World) : World :=
  {| heap := <[l := deref w l ++ deref w other]> (heap w);
     log := log w; calls := calls w |}.

Definition count_call (w : World) : World :=
  {| heap := heap w; log := log w; calls := S (calls w) |}.

(** ** The provider client and its responses (openai types) *)

Module openai.

Record ChatCompletionMessage : Type := {
  content : option string;
  parsed : option pyval
}.

Record Choice : Type := { message : ChatCompletionMessage }.

Record ChatCompletion : Type := { choices : list Choice }.

(** [client.beta.chat.completions.parse] applied to the unpacked parameters: what the [n]-th call
    issued in this run answers to the given parameters. *)
Record Client : Type := {
  parse : nat -> list (string * pyval) -> outcome ChatCompletion
}.

End openai.

(** [not s] for a value that is [None] or a string. *)
Definition str_falsy (s : option string) : bool :=
  match s with
  | None => true
  | Some t => String.eqb t ""
  end.

(** ** llm_helpers.reliable_parse *)

Definition entries_of (v : pyval) : list (string * pyval) :=
  match v with PDict d => d | _ => [] end.

(** [if k in src: dst[k'] = src[k]]. *)
Definition copy_key (src : list (string * pyval)) (k : string)
    (dst : list (string * pyval)) (k' : string) : list (string * pyval) :=
  match dict_get src k with
  | Some v => dict_set dst k' v
  | None => dst
  end.

Definition is_openrouter (model_info : option (list (string * pyval))) : bool :=
  match model_info with
  | Some ((_ :: _) as d) =>
      match dict_get d "provider" with
      | Some (PStr p) => String.eqb p "openrouter"
      | _ => false
      end
  | _ => false
  end.

(** The API key lookup of the OpenRouter branch: the top-level entry, else
    the one under ['additional_kwargs']. *)
Definition openrouter_api_key (d : list (string * pyval)) : pyval :=
  let key := default PNone (dict_get d "openrouter_api_key") in
  if truthy key then key
  else match dict_get d "additional_kwargs" with
       | Some ak =>
           match dict_get (entries_of ak) "openrouter_api_key" with
           | Some k => k
           | None => key
           end
       | None => key
       end.

Definition extra_headers (d : list (string * pyval)) : list (string * pyval) :=
  match dict_get d "additional_kwargs" with
  | Some ak =>
      let h := copy_key (entries_of ak) "http_referer" [] "HTTP-Referer" in
      copy_key (entries_of ak) "x_title" h "X-Title"
  | None => []
  end.

Definition extra_body (d : list (string * pyval)) : list (string * pyval) :=
  match dict_get d "additional_kwargs" with
  | Some ak =>
      let a := entries_of ak in
      let b := copy_key a "reasoning" [] "reasoning" in
      let b := copy_key a "provider" b "provider" in
      let b := copy_key a "models" b "models" in
      let b := copy_key a "routes" b "routes" in
      let b := copy_key a "transforms" b "transforms" in
      copy_key a "stream_options" b "stream_options"
  | None => []
  end.

Definition merged_params (request_params d : list (string * pyval))
  : list (string * pyval) :=
  let m := request_params in
  let m := match extra_headers d with
           | [] => m
           | h => dict_set m "extra_headers" (PDict h)
           end in
  match extra_body d with
  | [] => m
  | b => dict_set m "extra_body" (PDict b)
  end.

(** The OpenRouter retry loop: an exception of the call consumes one attempt. *)
Fixpoint openrouter_loop (fuel : nat) (client : openai.Client)
    (params : list (string * pyval)) (debug : bool)
    (max_retries retries : Z) (w : World)
  : outcome (option openai.ChatCompletion) * World :=
  match fuel with
  | O => (Diverge, w)
  | S fuel' =>
      if (retries <? max_retries)%Z then
        let w := if debug then logging INFO (Text "OpenRouter request params") w
                 else w in
        let n := calls w in
        let w := count_call w in
        match openai.parse client n params with
        | Ret response =>
            let empty :=
              match openai.choices response with
              | [] => true
              | c :: _ => str_falsy (openai.content (openai.message c))
              end in
            if empty then
              openrouter_loop fuel' client params debug max_retries
                (retries + 1)%Z
                (logging INFO (Text "Message content is empty, resending request...") w)
            else (Ret (Some response), w)
        | Raise e =>
            if isinstance_Exception e then
              openrouter_loop fuel' client params debug max_retries
                (retries + 1)%Z
                (logging ERROR (Text "OpenRouter request exception") w)
            else (Raise e, w)
        | Diverge => (Diverge, w)
        end
      else
        (Ret None,
         logging ERROR
           (Text "Unable to get a valid OpenRouter response after maximum retries.") w)
  end.

(** The loop of the other providers: an exception of the call propagates;
    [response.choices[0]] raises IndexError on an empty list. *)
Fixpoint standard_loop (fuel : nat) (client : openai.Client)
    (request_params : list (string * pyval))
    (max_retries retries : Z) (w : World)
  : outcome (option openai.ChatCompletion) * World :=
  match fuel with
  | O => (Diverge, w)
  | S fuel' =>
      if (retries <? max_retries)%Z then
        let n := calls w in
        let w := count_call w in
        match openai.parse client n request_params with
        | Ret response =>
            match openai.choices response with
            | [] => (Raise {| exn_cls := IndexError;
                              exn_str := "list index out of range" |}, w)
            | c :: _ =>
                if str_falsy (openai.content (openai.message c)) then
                  standard_loop fuel' client request_params max_retries
                    (retries + 1)%Z
                    (logging INFO
                       (Text "The message content is null or empty, re-running the request...") w)
                else (Ret (Some response), w)
            end
        | Raise e => (Raise e, w)
        | Diverge => (Diverge, w)
        end
      else
        (Ret None,
         logging ERROR
           (Text "Failed to get a valid response after maximum retries.") w)
  end.

(** [reliable_parse(client, request_params, max_retries=3, debug=False,
    model_info=None)]; [max_retries = None] is the call that leaves the
    argument out. The loops run on [retries], which starts at 0 and grows by
    one per iteration, so [max_retries + 1] iterations always suffice. *)
Definition reliable_parse (client : openai.Client)
    (request_params : list (string * pyval)) (max_retries : option Z)
    (debug : bool) (model_info : option (list (string * pyval))) (w : World)
  : outcome (option openai.ChatCompletion) * World :=
  let max_retries := default 3%Z max_retries in
  let fuel := S (Z.to_nat max_retries) in
  if is_openrouter model_info then
    let d := default [] model_info in
    if truthy (openrouter_api_key d) then
      let w := match dict_get d "additional_kwargs" with
               | Some ak =>
                   match dict_get (entries_of ak) "reasoning" with
                   | Some _ => logging INFO (Text "Using OpenRouter reasoning parameter") w
                   | None => w
                   end
               | None => w
               end in
      openrouter_loop fuel client (merged_params request_params d) debug
        max_retries 0%Z w
    else
      (Raise {| exn_cls := ValueError;
                exn_str := "OpenRouter API key not found in model_info" |}, w)
  else
    standard_loop fuel client request_params max_retries 0%Z w.

(** ** state_machine.py: states, actions and transitions *)

(** The context object: its identity as a Python value and its [messages]
    attribute, when it has one. *)
Record Context : Type := { ctx_self : pyval; ctx_messages : option loc }.

Record Config : Type := { config_path : string; top_p : pyval }.

(** The fields of a [StateMachine] instance that actions read and write.
    Actions and transitions receive and return these fields; they are not
    modelled as rebinding the machine's current state or its registry. *)
Record MachineData : Type := {
  context : Context;
  config : Config;
  clients : list (openai.Client * list (string * pyval));
  agent_results : list pyval;
  analysis_result : list pyval;
  messages : loc;
  total_input_tokens : Z;
  total_output_tokens : Z
}.

Definition analysis_result_append (v : pyval) (d : MachineData) : MachineData :=
  {| context := context d; config := config d; clients := clients d;
     agent_results := agent_results d;
     analysis_result := analysis_result d ++ [v];
     messages := messages d;
     total_input_tokens := total_input_tokens d;
     total_output_tokens := total_output_tokens d |}.

Definition add_tokens (i o : Z) (d : MachineData) : MachineData :=
  {| context := context d; config := config d; clients := clients d;
     agent_results := agent_results d;
     analysis_result := analysis_result d;
     messages := messages d;
     total_input_tokens := (total_input_tokens d + i)%Z;
     total_output_tokens := (total_output_tokens d + o)%Z |}.

(** A Python function used as an action: what [__code__] exposes and what a
    call does. The first declared parameter receives the machine; a
    parameter is paired with [true] when it has a default; [co_locals] are
    the other local variables that no nested function captures. Functions
    with a star-args or keyword-only parameters are not modelled. *)
Record PyFunction : Type := {
  co_params : list (string * bool);
  co_var_kw : option string;
  co_locals : list string;
  body : list (string * pyval) -> MachineData -> World
         -> outcome pyval * MachineData * World
}.

(** [f.__code__.co_varnames]: the parameters, then the other locals. *)
Definition co_varnames (f : PyFunction) : list string :=
  (co_params f).*1 ++ option_list (co_var_kw f) ++ co_locals f.

Definition type_error (s : string) : exn := {| exn_cls := TypeError; exn_str := s |}.

Definition has_key (d : list (string * pyval)) (k : string) : bool :=
  bool_decide (is_Some (dict_get d k)).

(** Argument binding of [f(machine, **kwargs)]: the TypeError Python raises,
    if any. *)
Definition bind_error (f : PyFunction) (kwargs : list (string * pyval))
  : option exn :=
  match co_params f with
  | [] => Some (type_error "takes 0 positional arguments but 1 was given")
  | (p0, _) :: rest =>
      if has_key kwargs p0 then
        Some (type_error "got multiple values for argument")
      else if negb (bool_decide (is_Some (co_var_kw f)))
              && negb (forallb (fun kv => bool_decide (kv.1 ∈ rest.*1)) kwargs) then
        Some (type_error "got an unexpected keyword argument")
      else if negb (forallb (fun p => p.2 || has_key kwargs p.1) rest) then
        Some (type_error "missing required positional argument")
      else None
  end.

Definition call (f : PyFunction) (kwargs : list (string * pyval))
    (machine : MachineData) (w : World) : outcome pyval * MachineData * World :=
  match bind_error f kwargs with
  | Some e => (Raise e, machine, w)
  | None => body f kwargs machine w
  end.

(** [f(machine, **v)] for an arbitrary value [v]. *)
Definition call_unpacking (f : PyFunction) (v : pyval)
    (machine : MachineData) (w : World) : outcome pyval * MachineData * World :=
  match v with
  | PDict kwargs => call f kwargs machine w
  | _ => (Raise (type_error "argument after ** must be a mapping"), machine, w)
  end.

Definition Transition : Type :=
  pyval -> MachineData -> World -> outcome pyval * MachineData * World.

(** [next_state_func(result, machine)]; the slot may hold [None]. *)
Definition call_transition (next_state_func : option Transition)
    (result : pyval) (machine : MachineData) (w : World)
  : outcome pyval * MachineData * World :=
  match next_state_func with
  | Some f => f result machine w
  | None => (Raise (type_error "'NoneType' object is not callable"), machine, w)
  end.

Inductive State : Type :=
| ExitState
| BaseState (name : string) (action : PyFunction)
    (next_state_func : option Transition).

Definition name (st : State) : string :=
  match st with
  | ExitState => "Exit"
  | BaseState n _ _ => n
  end.

Record StateMachine : Type := {
  data : MachineData;
  state : option State;
  states : gmap string State
}.

Definition with_data (m : StateMachine) (d : MachineData) : StateMachine :=
  {| data := d; state := state m; states := states m |}.

Definition with_state (m : StateMachine) (st : option State) : StateMachine :=
  {| data := data m; state := st; states := states m |}.

(** One entry of [state_definitions]: the ['action'] and ['next_state_func']
    keys; a key holding [None] counts as [next_state_func = None]. *)
Record StateConfig : Type := {
  cfg_action : option PyFunction;
  cfg_next_state_func : option Transition
}.

Fixpoint _create_states_loop (state_definitions : list (string * StateConfig))
    (states : gmap string State) : outcome (gmap string State) :=
  match state_definitions with
  | [] => Ret states
  | (name, config) :: rest =>
      if String.eqb name "Exit" then
        _create_states_loop rest (<[name := ExitState]> states)
      else
        match cfg_action config with
        | None => Raise {| exn_cls := KeyError; exn_str := "'action'" |}
        | Some action =>
            _create_states_loop rest
              (<[name := BaseState name action (cfg_next_state_func config)]> states)
        end
  end.

Definition _create_states (state_definitions : list (string * StateConfig))
  : outcome (gmap string State) :=
  _create_states_loop state_definitions ∅.

(** What the constructor takes from files and credentials: the model
    manager, the configuration and the clients, as one step that may raise. *)
Record Environment : Type := {
  load_environment :
    string -> World
    -> outcome (Config * list (openai.Client * list (string * pyval))) * World
}.

Definition initial_state_error : exn :=
  {| exn_cls := ValueError;
     exn_str := "Initial state is not defined in state_definitions." |}.

(** [StateMachine.__init__]. The list allocated for a context without
    [messages] is created after the environment step. *)
Definition StateMachine__init__ (env : Environment) (context : Context)
    (state_definitions : list (string * StateConfig)) (initial_state : string)
    (config_path : string) (w : World) : outcome StateMachine * World :=
  match load_environment env config_path w with
  | (Raise e, w) => (Raise e, w)
  | (Diverge, w) => (Diverge, w)
  | (Ret (config, clients), w) =>
      let '(messages, w) :=
        match ctx_messages context with
        | Some l => (l, w)
        | None => alloc_list w
        end in
      match _create_states state_definitions with
      | Raise e => (Raise e, w)
      | Diverge => (Diverge, w)
      | Ret states =>
          match states !! initial_state with
          | None =>
              (Raise initial_state_error, w)
          | Some st =>
              (Ret {| data := {| context := context; config := config;
                                 clients := clients; agent_results := [];
                                 analysis_result := []; messages := messages;
                                 total_input_tokens := 0;
                                 total_output_tokens := 0 |};
                      state := Some st;
                      states := states |}, w)
          end
      end
  end.

(** ** StateMachine.process *)

(** [self.states.get(key, ExitState())]: hashing an unhashable key raises;
    the registry is keyed by strings, so any other key meets the default. *)
Definition states_get (states : gmap string State) (key : pyval)
  : exn + State :=
  if hashable key then
    match key with
    | PStr next_state_name => inr (default ExitState (states !! next_state_name))
    | _ => inr ExitState
    end
  else inl (type_error "unhashable type").

(** The call of the action: with the pending arguments as keyword arguments
    when [co_varnames] has more than one name, with the machine alone
    otherwise. *)
Definition invoke (action_func : PyFunction) (extra_args : pyval)
    (machine : MachineData) (w : World) : outcome pyval * MachineData * World :=
  let args_spec := co_varnames action_func in
  if 1 <? length args_spec then
    let kwargs := if truthy extra_args then extra_args else PDict [] in
    call_unpacking action_func kwargs machine w
  else call action_func [] machine w.

Definition transition_shape_error : exn :=
  {| exn_cls := ValueError;
     exn_str := "next_state_func must return a string or a tuple (state_name, args_dict)" |}.

(** What one pass through the [try] block of the loop does. *)
Inductive iteration : Type :=
| Next (m : StateMachine) (previous_result extra_args : pyval) (w : World)
| Returned (v : pyval) (m : StateMachine) (w : World)
| Raised (e : exn) (m : StateMachine) (w : World)
| Diverged (m : StateMachine) (w : World).

(** The body of the [try]. The reset of [extra_args] after a call with
    keyword arguments is not written out: every path that reaches the next
    iteration assigns [extra_args] again when it decodes the transition. *)
Definition try_body (m : StateMachine) (previous_result extra_args : pyval)
    (w : World) : iteration :=
  match state m with
  | None | Some ExitState => Returned previous_result m w
  | Some (BaseState _ action_func next_state_func) =>
      match invoke action_func extra_args (data m) w with
      | (Raise e, d, w) => Raised e (with_data m d) w
      | (Diverge, d, w) => Diverged (with_data m d) w
      | (Ret result, d, w) =>
          match call_transition next_state_func result d w with
          | (Raise e, d, w) => Raised e (with_data m d) w
          | (Diverge, d, w) => Diverged (with_data m d) w
          | (Ret next_state_info, d, w) =>
              let m := with_data m d in
              match next_state_info with
              | PTuple [] =>
                  Raised {| exn_cls := IndexError;
                            exn_str := "tuple index out of range" |} m w
              | PTuple (next_state_name :: rest) =>
                  let extra_args := match rest with
                                    | [] => PDict []
                                    | a :: _ => a
                                    end in
                  match states_get (states m) next_state_name with
                  | inl e => Raised e m w
                  | inr st => Next (with_state m (Some st)) result extra_args w
                  end
              | PStr next_state_name =>
                  Next (with_state m
                          (Some (default ExitState (states m !! next_state_name))))
                       result (PDict []) w
              | _ =>
                  Raised transition_shape_error m w
              end
          end
      end
  end.

(** [self.state.name] as the handlers read it. *)
Definition state_name (m : StateMachine) : string :=
  match state m with
  | Some st => name st
  | None => ""
  end.

(** The two [except] clauses: [Some e] re-raises [e], [None] is [break]. *)
Definition except_clauses (m : StateMachine) (e : exn) (w : World)
  : option exn * World :=
  if isinstance_RuntimeError e then
    if str_contains usage_limit_text (exn_str e) then
      (Some e, logging ERROR (UsageLimitInState (state_name m)) w)
    else
      (None,
       logging ERROR (TracebackOf e)
         (logging ERROR (RuntimeErrorInState (state_name m) e) w))
  else if isinstance_Exception e then
    (None,
     logging ERROR (TracebackOf e)
       (logging ERROR (ErrorInState (state_name m) e) w))
  else (Some e, w).

(** The [while True] loop. After [break] the function ends without a
    [return] statement, so the call evaluates to [None]. *)
Fixpoint process_loop (fuel : nat) (m : StateMachine)
    (previous_result extra_args : pyval) (w : World)
  : outcome pyval * StateMachine * World :=
  match fuel with
  | O => (Diverge, m, w)
  | S fuel' =>
      match try_body m previous_result extra_args w with
      | Next m previous_result extra_args w =>
          process_loop fuel' m previous_result extra_args w
      | Returned v m w => (Ret v, m, w)
      | Diverged m w => (Diverge, m, w)
      | Raised e m w =>
          match except_clauses m e w with
          | (Some e, w) => (Raise e, m, w)
          | (None, w) => (Ret PNone, m, w)
          end
      end
  end.

Definition process (fuel : nat) (m : StateMachine) (w : World)
  : outcome pyval * StateMachine * World :=
  process_loop fuel m PNone (PDict []) w.

(** ** action_utils.py *)

Definition raising {A : Type} (c : exn_class) (s : string) : outcome A :=
  Raise {| exn_cls := c; exn_str := s |}.

Definition msg_value (m : Msg) : pyval :=
  PDict [("role", PStr (role m)); ("content", content m)].

Definition opt_str (s : option string) : pyval :=
  match s with Some t => PStr t | None => PNone end.

(** The generator over [machine.clients] that looks for the entry whose
    [info['name']] equals [model_name]. *)
Fixpoint find_client (clients : list (openai.Client * list (string * pyval)))
    (model_name : string)
  : outcome (option (openai.Client * list (string * pyval))) :=
  match clients with
  | [] => Ret None
  | (client, info) :: rest =>
      match dict_get info "name" with
      | None => raising KeyError "'name'"
      | Some (PStr n) =>
          if String.eqb n model_name then Ret (Some (client, info))
          else find_client rest model_name
      | Some _ => find_client rest model_name
      end
  end.

Definition is_o1 (model : pyval) : bool :=
  match model with
  | PStr s => String.eqb s "o1-mini" || String.eqb s "o1-preview"
  | _ => false
  end.

Definition invalid_save_option : exn :=
  {| exn_cls := ValueError;
     exn_str := "Invalid save_option value. Choose from 'prompt', 'result', or 'both'." |}.

(** The closure [chat_action] returned by [create_chat_action];
    [prompt_template] is the template with its [format] method applied to
    the keyword arguments. The conversion of a tuple [info] to a dict is
    left out: the lookup [info['name']] before it only succeeds on a dict. *)
Definition chat_action
    (prompt_template : list (string * pyval) -> outcome string)
    (response_parser : option pyval) (save_option : string)
    (model_name : string) (debug : bool)
    (kwargs : list (string * pyval)) (machine : MachineData) (w : World)
  : outcome pyval * MachineData * World :=
  match prompt_template kwargs with
  | Raise e => (Raise e, machine, w)
  | Diverge => (Diverge, machine, w)
  | Ret prompt =>
      let w := if debug then logging INFO (Text "Chat Action Prompt") w else w in
      let w := list_append (messages machine)
                 {| role := "user"; content := PStr prompt |} w in
      match find_client (clients machine) model_name with
      | Raise e => (Raise e, machine, w)
      | Diverge => (Diverge, machine, w)
      | Ret None =>
          (raising ValueError "Model not found in initialized clients.", machine, w)
      | Ret (Some (client_to_use, info)) =>
          match dict_get info "model_name" with
          | None => (raising KeyError "'model_name'", machine, w)
          | Some model =>
              let request_params :=
                [("model", model);
                 ("messages", PList (msg_value <$> deref w (messages machine)))]
                ++ (if is_o1 model then []
                    else [("temperature", PFloat "0.01");
                          ("top_p", top_p (config machine))])
                ++ match response_parser with
                   | Some rp => [("response_format", rp)]
                   | None => []
                   end in
              let w := logging INFO
                         (Text "Waiting for the model to process the request...") w in
              match reliable_parse client_to_use request_params (Some 3%Z) debug
                      (Some info) w with
              | (Raise e, w) => (Raise e, machine, w)
              | (Diverge, w) => (Diverge, machine, w)
              | (Ret response, w) =>
                  let w := logging INFO
                             (Text "Model processed the request successfully.") w in
                  match response with
                  | None =>
                      (raising AttributeError
                         "'NoneType' object has no attribute 'choices'", machine, w)
                  | Some r =>
                      match openai.choices r with
                      | [] => (raising IndexError "list index out of range", machine, w)
                      | c :: _ =>
                          let message := openai.message c in
                          let w := list_append (messages machine)
                                     {| role := "assistant";
                                        content := opt_str (openai.content message) |} w in
                          let parsed_result :=
                            match openai.parsed message with
                            | None => opt_str (openai.content message)
                            | Some v => v
                            end in
                          if String.eqb save_option "prompt" then
                            (Ret parsed_result,
                             analysis_result_append (PStr prompt) machine, w)
                          else if String.eqb save_option "result" then
                            (Ret parsed_result,
                             analysis_result_append parsed_result machine, w)
                          else if String.eqb save_option "both" then
                            (Ret parsed_result,
                             analysis_result_append
                               (PDict [("prompt", PStr prompt);
                                       ("result", parsed_result)]) machine, w)
                          else if String.eqb save_option "none" then
                            (Ret parsed_result, machine, w)
                          else (Raise invalid_save_option, machine, w)
                      end
                  end
              end
          end
      end
  end.


(** The closure [sub_state_machine_action] returned by
    [call_sub_state_machine_action]; [fuel] bounds how far the nested loop is
    followed. *)
Definition sub_state_machine_action (env : Environment) (fuel : nat)
    (sub_state_definitions : list (string * StateConfig))
    (sub_initial_state : string)
    (sub_context_cls : list (string * pyval) -> World -> outcome Context * World)
    (save_option : string)
    (kwargs : list (string * pyval)) (machine : MachineData) (w : World)
  : outcome pyval * MachineData * World :=
  match sub_context_cls kwargs w with
  | (Raise e, w) => (Raise e, machine, w)
  | (Diverge, w) => (Diverge, machine, w)
  | (Ret sub_context, w) =>
      match StateMachine__init__ env sub_context sub_state_definitions
              sub_initial_state (config_path (config machine)) w with
      | (Raise e, w) => (Raise e, machine, w)
      | (Diverge, w) => (Diverge, machine, w)
      | (Ret sub_machine, w) =>
          match process fuel sub_machine w with
          | (Raise e, _, w) => (Raise e, machine, w)
          | (Diverge, _, w) => (Diverge, machine, w)
          | (Ret sub_result, sub_machine, w) =>
              let machine :=
                add_tokens (total_input_tokens (data sub_machine))
                           (total_output_tokens (data sub_machine)) machine in
              let w := list_extend (messages machine)
                         (messages (data sub_machine)) w in
              if String.eqb save_option "prompt" then
                (Ret sub_result,
                 analysis_result_append (ctx_self sub_context) machine, w)
              else if String.eqb save_option "result" then
                (Ret sub_result, analysis_result_append sub_result machine, w)
              else if String.eqb save_option "both" then
                (Ret sub_result,
                 analysis_result_append
                   (PDict [("context", ctx_self sub_context);
                           ("result", sub_result)]) machine, w)
              else (Raise invalid_save_option, machine, w)
          end
      end
  end.

Definition call_sub_state_machine_action (env : Environment) (fuel : nat)
    (sub_state_definitions : list (string * StateConfig))
    (sub_initial_state : string)
    (sub_context_cls : list (string * pyval) -> World -> outcome Context * World)
    (save_option : string) : PyFunction :=
  {| co_params := [("machine", false)];
     co_var_kw := Some "kwargs";
     co_locals := ["StateMachine"; "sub_context"; "sub_machine"; "sub_result"];
     body := sub_state_machine_action env fuel sub_state_definitions
               sub_initial_state sub_context_cls save_option |}.

(** ** agent_action_utils.py: the exception clauses of the agent action *)

(** What the four [except] clauses log; each of them re-raises. *)
Definition agent_except (e : exn) (w : World) : World :=
  match exn_cls e with
  | CLINotFoundError => logging ERROR (Text "Claude Code CLI not found.") w
  | ProcessError => logging ERROR (Text "Process failed with exit code") w
  | RuntimeError =>
      if str_contains usage_limit_text (exn_str e) then
        logging ERROR (Text "Claude AI usage limit reached - stopping execution") w
      else w
  | BaseExceptionOnly => w
  | _ => logging ERROR (Text "Agent action failed") w
  end.

(** The closure [action] returned by [create_agent_action]; [run_query] is
    the body of its [try] block. *)
Definition agent_action
    (prompt_template : list (string * pyval) -> outcome string)
    (run_query : string -> MachineData -> World
                 -> outcome pyval * MachineData * World)
    (kwargs : list (string * pyval)) (machine : MachineData) (w : World)
  : outcome pyval * MachineData * World :=
  match prompt_template kwargs with
  | Raise e => (Raise e, machine, w)
  | Diverge => (Diverge, machine, w)
  | Ret formatted_prompt =>
      match run_query formatted_prompt machine w with
      | (Raise e, machine, w) => (Raise e, machine, agent_except e w)
      | r => r
      end
  end.

Definition create_agent_action
    (prompt_template : list (string * pyval) -> outcome string)
    (run_query : string -> MachineData -> World
                 -> outcome pyval * MachineData * World) : PyFunction :=
  {| co_params := [("machine", false)];
     co_var_kw := Some "kwargs";
     co_locals := ["session_id"; "log_context"; "run_query"; "full_response";
                   "parsed_result"; "result"; "e"];
     body := agent_action prompt_template run_query |}.

(** ** Runs of the loop *)

(** The loop variables after [n] full iterations, when none of them leaves
    the loop. *)
Fixpoint run_to (n : nat) (m : StateMachine) (previous_result extra_args : pyval)
    (w : World) : option (StateMachine * pyval * pyval * World) :=
  match n with
  | O => Some (m, previous_result, extra_args, w)
  | S n' =>
      match try_body m previous_result extra_args w with
      | Next m previous_result extra_args w =>
          run_to n' m previous_result extra_args w
      | _ => None
      end
  end.

(** [process] is in its [n]-th iteration with these loop variables. *)
Definition reaches (m : StateMachine) (w : World) (n : nat)
    (m' : StateMachine) (previous_result extra_args : pyval) (w' : World) : Prop :=
  run_to n m PNone (PDict []) w = Some (m', previous_result, extra_args, w').

(** A transition result that is neither a string nor a tuple. *)
Definition wrong_shape (next_state_info : pyval) : bool :=
  match next_state_info with
  | PStr _ | PTuple _ => false
  | _ => true
  end.

(** A registry as [_create_states] builds it: the name Exit, when present,
    holds the exit state. *)
Definition exit_reserved (states : gmap string State) : Prop :=
  ∀ st, states !! "Exit" = Some st → st = ExitState.

(** An empty-content response: a first choice whose content is [None] or
    the empty string. *)
Definition empty_content (r : openai.ChatCompletion) : bool :=
  match openai.choices r with
  | c :: _ => str_falsy (openai.content (openai.message c))
  | [] => false
  end.

(** The request descriptor passes the check made before the first call: an
    OpenRouter descriptor carries its API key. *)
Definition descriptor_ok (model_info : option (list (string * pyval))) : bool :=
  if is_openrouter model_info
  then truthy (openrouter_api_key (default [] model_info))
  else true.



(** The next [k] calls each meet an empty-content response, whatever the
    parameters. *)
Definition all_empty (client : openai.Client) (k : nat) (w : World) : Prop :=
  ∀ i params, i < k →
    ∃ r, openai.parse client (calls w + i) params = Ret r ∧
         empty_content r = true.

(** Every entry other than Exit has its ['action'] key. *)
Definition actions_present (defs : list (string * StateConfig)) : Prop :=
  ∀ nm cfg, (nm, cfg) ∈ defs → nm ≠ "Exit" → is_Some (cfg_action cfg).




(** ** Further notions used by the properties of the loop and the invoker *)

(** An attempt of the OpenRouter loop that does not end it: the call raises
    an [Exception], or answers with no choice or with empty content. *)
Definition attempt_fails (o : outcome openai.ChatCompletion) : bool :=
  match o with
  | Ret r =>
      match openai.choices r with
      | [] => true
      | c :: _ => str_falsy (openai.content (openai.message c))
      end
  | Raise e => isinstance_Exception e
  | Diverge => false
  end.

(** The registry entries with the configuration under Exit replaced. *)
Definition with_exit_config (c : StateConfig)
    (defs : list (string * StateConfig)) : list (string * StateConfig) :=
  (λ p, if String.eqb p.1 "Exit" then (p.1, c) else p) <$> defs.

(** The current state is the exit state or a state of the registry. *)
Definition in_registry (m : StateMachine) : Prop :=
  ∃ st, state m = Some st ∧
        (st = ExitState ∨ ∃ key, states m !! key = Some st).

(** The first choice of a response has content that is neither [None] nor
    the empty string. *)
Definition has_content (r : openai.ChatCompletion) : Prop :=
  ∃ c cs, openai.choices r = c :: cs ∧
          str_falsy (openai.content (openai.message c)) = false.

(** ** Concrete machines used as test inputs *)

Definition ex_env : Environment :=
  {| load_environment := fun path w =>
       (Ret ({| config_path := path; top_p := PFloat "1.0" |}, []), w) |}.

Definition ex_world : World := {| heap := []; log := []; calls := 0 |}.

Definition ex_context : Context := {| ctx_self := PObj 0; ctx_messages := None |}.

(** [def action(machine): return v], written as a lambda: no other local. *)
Definition returning (v : pyval) : PyFunction :=
  {| co_params := [("machine", false)]; co_var_kw := None; co_locals := [];
     body := fun _ d w => (Ret v, d, w) |}.

(** [def action(machine): raise e]. *)
Definition raising_action (e : exn) : PyFunction :=
  {| co_params := [("machine", false)]; co_var_kw := None; co_locals := [];
     body := fun _ d w => (Raise e, d, w) |}.

(** [lambda result, machine: v]. *)
Definition always (v : pyval) : option Transition :=
  Some (fun _ d w => (Ret v, d, w)).

Definition entry (a : PyFunction) (t : option Transition) : StateConfig :=
  {| cfg_action := Some a; cfg_next_state_func := t |}.

Definition exit_entry : string * StateConfig :=
  ("Exit", {| cfg_action := Some (returning PNone); cfg_next_state_func := None |}).

(** The machine built from a registry, with the world it is built in. *)
Definition build (defs : list (string * StateConfig)) (initial : string)
  : outcome StateMachine * World :=
  StateMachine__init__ ex_env ex_context defs initial "" ex_world.

(** Running a machine right after building it. *)
Definition build_and_process (fuel : nat) (defs : list (string * StateConfig))
    (initial : string) : outcome pyval * World :=
  match build defs initial with
  | (Ret m, w) => let '(o, _, w) := process fuel m w in (o, w)
  | (Raise e, w) => (Raise e, w)
  | (Diverge, w) => (Diverge, w)
  end.

Definition boom : exn := {| exn_cls := ValueError; exn_str := "boom" |}.

(** A returns 1 and goes to B; B raises an ordinary exception. *)
Definition ex_A_then_failing_B : list (string * StateConfig) :=
  [("A", entry (returning (PInt 1)) (always (PStr "B")));
   ("B", entry (raising_action boom) (always (PStr "Exit")));
   exit_entry].

(** A returns 1; its transition returns [None] instead of a name. *)
Definition ex_transition_returns_None : list (string * StateConfig) :=
  [("A", entry (returning (PInt 1)) (always PNone)); exit_entry].

(** The same with a number. *)
Definition ex_transition_returns_number : list (string * StateConfig) :=
  [("A", entry (returning (PInt 1)) (always (PInt 5))); exit_entry].

(** A returns 1 and names a state that is not registered. *)
Definition ex_unknown_next_state : list (string * StateConfig) :=
  [("A", entry (returning (PInt 1)) (always (PStr "Nowhere"))); exit_entry].

Definition msg_x : Msg := {| role := "user"; content := PStr "x" |}.
Definition msg_a : Msg := {| role := "user"; content := PStr "a" |}.
Definition msg_b : Msg := {| role := "assistant"; content := PStr "b" |}.

(** A parent machine with counters 2 and 3 whose message list, at location
    0, holds [x]. *)
Definition ex_parent_world : World :=
  {| heap := [[msg_x]]; log := []; calls := 0 |}.

Definition ex_parent : MachineData :=
  {| context := {| ctx_self := PObj 1; ctx_messages := Some 0 |};
     config := {| config_path := ""; top_p := PFloat "1.0" |};
     clients := []; agent_results := []; analysis_result := [];
     messages := 0; total_input_tokens := 2; total_output_tokens := 3 |}.

(** A child whose single action uses 5 input and 7 output tokens and appends
    [a] and [b] to its own messages. *)
Definition ex_child_action : PyFunction :=
  {| co_params := [("machine", false)]; co_var_kw := None; co_locals := [];
     body := fun _ d w =>
       (Ret (PStr "done"), add_tokens 5 7 d,
        list_append (messages d) msg_b (list_append (messages d) msg_a w)) |}.

Definition ex_child : list (string * StateConfig) :=
  [("Work", entry ex_child_action (always (PStr "Exit"))); exit_entry].

Definition ex_child_context (kwargs : list (string * pyval)) (w : World)
  : outcome Context * World :=
  (Ret {| ctx_self := PObj 2; ctx_messages := None |}, w).

(** A provider that answers every call with one choice of empty content. *)
Definition ex_empty_response : openai.ChatCompletion :=
  {| openai.choices :=
       [{| openai.message := {| openai.content := Some ""; openai.parsed := None |} |}] |}.

Definition ex_empty_client : openai.Client :=
  {| openai.parse := fun _ _ => Ret ex_empty_response |}.

(** A provider that answers with empty content twice and with text from the
    third call on. *)
Definition ex_text_response : openai.ChatCompletion :=
  {| openai.choices :=
       [{| openai.message := {| openai.content := Some "ok"; openai.parsed := None |} |}] |}.

Definition ex_slow_client : openai.Client :=
  {| openai.parse := fun n _ => if n <? 2 then Ret ex_empty_response
                                else Ret ex_text_response |}.

Definition ex_openrouter_info : list (string * pyval) :=
  [("name", PStr "or-model"); ("model_name", PStr "vendor/model");
   ("provider", PStr "openrouter"); ("openrouter_api_key", PStr "sk-or")].

Definition usage_limit : exn :=
  {| exn_cls := RuntimeError; exn_str := "Claude AI usage limit reached" |}.

(** An agent action whose query meets the usage limit. *)
Definition ex_agent_hits_limit : PyFunction :=
  create_agent_action (fun _ => Ret "prompt")
    (fun _ d w => (Raise usage_limit, d, w)).

(** A returns 1 and goes to B; B is the agent action above. *)
Definition ex_A_then_limit_in_B : list (string * StateConfig) :=
  [("A", entry (returning (PInt 1)) (always (PStr "B")));
   ("B", entry ex_agent_hits_limit (always (PStr "Exit")));
   exit_entry].

(** A parent whose only state delegates to that machine. *)
Definition ex_parent_of_limit : list (string * StateConfig) :=
  [("Delegate",
    entry (call_sub_state_machine_action ex_env 10 ex_A_then_limit_in_B "A"
             ex_child_context "result")
          (always (PStr "Exit")));
   exit_entry].

(** A registry without an Exit entry. *)
Definition ex_no_exit_entry : list (string * StateConfig) :=
  [("A", entry (returning (PInt 1)) (always (PStr "Exit")))].

(** A provider that always answers with text, and a machine that knows it
    under the model name m; its message list, at location 0, holds [x]. *)
Definition ex_text_client : openai.Client :=
  {| openai.parse := fun _ _ => Ret ex_text_response |}.

Definition ex_chat_machine : MachineData :=
  {| context := {| ctx_self := PObj 1; ctx_messages := Some 0 |};
     config := {| config_path := ""; top_p := PFloat "1.0" |};
     clients := [(ex_text_client, [("name", PStr "m"); ("model_name", PStr "gpt")])];
     agent_results := []; analysis_result := [];
     messages := 0; total_input_tokens := 0; total_output_tokens := 0 |}.

(** [def action(machine): tmp = 2; return tmp]: one declared parameter and
    one other local variable. *)
Definition ex_action_with_local : PyFunction :=
  {| co_params := [("machine", false)]; co_var_kw := None; co_locals := ["tmp"];
     body := fun _ d w => (Ret (PInt 2), d, w) |}.

(** S1 returns 1 and hands the argument bag k = 1 to S2. *)
Definition ex_bag_for (a : PyFunction) : list (string * StateConfig) :=
  [("S1", entry (returning (PInt 1))
            (always (PTuple [PStr "S2"; PDict [("k", PInt 1)]])));
   ("S2", entry a (always (PStr "Exit")));
   exit_entry].




(** ** Further test inputs *)

(** A returns 1 and goes to B; B returns 2 and goes to Exit. *)
Definition ex_A_then_B : list (string * StateConfig) :=
  [("A", entry (returning (PInt 1)) (always (PStr "B")));
   ("B", entry (returning (PInt 2)) (always (PStr "Exit")));
   exit_entry].

Definition keyboard_interrupt : exn :=
  {| exn_cls := BaseExceptionOnly; exn_str := "KeyboardInterrupt" |}.

(** A returns 1; B is interrupted from the keyboard. *)
Definition ex_A_then_interrupted_B : list (string * StateConfig) :=
  [("A", entry (returning (PInt 1)) (always (PStr "B")));
   ("B", entry (raising_action keyboard_interrupt) (always (PStr "Exit")));
   exit_entry].

(** A returns 1; its transition names the next state by a number. *)
Definition ex_tuple_with_number : list (string * StateConfig) :=
  [("A", entry (returning (PInt 1)) (always (PTuple [PInt 7; PDict []])));
   exit_entry].

(** An entry without its action key. *)
Definition ex_missing_action : list (string * StateConfig) :=
  [("A", entry (returning (PInt 1)) (always (PStr "B")));
   ("B", {| cfg_action := None; cfg_next_state_func := always (PStr "Exit") |});
   exit_entry].

Definition timeout_error : exn :=
  {| exn_cls := OtherException; exn_str := "Request timed out." |}.

(** A provider whose every call raises. *)
Definition ex_failing_client : openai.Client :=
  {| openai.parse := fun _ _ => Raise timeout_error |}.

(** A provider that answers with no choice at all. *)
Definition ex_no_choice_client : openai.Client :=
  {| openai.parse := fun _ _ => Ret {| openai.choices := [] |} |}.

(** The chat machine of the examples with a provider that only answers
    with empty content, and one with no client at all. *)
Definition ex_chat_machine_empty : MachineData :=
  {| context := {| ctx_self := PObj 1; ctx_messages := Some 0 |};
     config := {| config_path := ""; top_p := PFloat "1.0" |};
     clients := [(ex_empty_client, [("name", PStr "m"); ("model_name", PStr "gpt")])];
     agent_results := []; analysis_result := [];
     messages := 0; total_input_tokens := 0; total_output_tokens := 0 |}.

Definition ex_chat_machine_no_client : MachineData :=
  {| context := {| ctx_self := PObj 1; ctx_messages := Some 0 |};
     config := {| config_path := ""; top_p := PFloat "1.0" |};
     clients := [];
     agent_results := []; analysis_result := [];
     messages := 0; total_input_tokens := 0; total_output_tokens := 0 |}.

(** A child context that shares the parent's message list (location 0). *)
Definition ex_sharing_context (kwargs : list (string * pyval)) (w : World)
  : outcome Context * World :=
  (Ret {| ctx_self := PObj 4; ctx_messages := Some 0 |}, w).

(** A parent with results already logged. *)
Definition ex_parent_with_results : MachineData :=
  {| context := {| ctx_self := PObj 1; ctx_messages := Some 0 |};
     config := {| config_path := ""; top_p := PFloat "1.0" |};
     clients := []; agent_results := []; analysis_result := [PStr "earlier"];
     messages := 0; total_input_tokens := 2; total_output_tokens := 3 |}.

(** A child whose action logs a result of its own before returning. *)
Definition ex_child_logging_action : PyFunction :=
  {| co_params := [("machine", false)]; co_var_kw := None; co_locals := [];
     body := fun _ d w =>
       (Ret (PStr "done"), analysis_result_append (PStr "inner") d, w) |}.

Definition ex_child_logging : list (string * StateConfig) :=
  [("Work", entry ex_child_logging_action (always (PStr "Exit"))); exit_entry].

(** * Properties *)

(** ** Shared facts about the loop *)

Lemma process_loop_run_to n k m p e w m' p' e' w' :
  run_to n m p e w = Some (m', p', e', w') →
  process_loop (n + k) m p e w = process_loop k m' p' e' w'.
Proof.
  revert m p e w.
  induction n as [|n IH]; intros m p e w H; simpl in *.
  - by inversion H.
  - destruct (try_body m p e w) as [m1 p1 e1 w1| | |]; try discriminate.
    by apply IH.
Qed.

(** From the [n]-th iteration on, [process] behaves as the loop started
    there. *)
Lemma process_from_reached m w n m' p' e' w' fuel :
  reaches m w n m' p' e' w' → n < fuel →
  process fuel m w = process_loop (fuel - n) m' p' e' w'.
Proof.
  intros Hr Hlt. unfold process.
  replace fuel with (n + (fuel - n)) at 1 by lia.
  by apply process_loop_run_to.
Qed.

Lemma process_loop_raised k m p e w exn m' w' :
  try_body m p e w = Raised exn m' w' →
  process_loop (S k) m p e w =
    match except_clauses m' exn w' with
    | (Some e, w) => (Raise e, m', w)
    | (None, w) => (Ret PNone, m', w)
    end.
Proof. intros H. simpl. by rewrite H. Qed.

Lemma process_loop_returned k m p e w v m' w' :
  try_body m p e w = Returned v m' w' →
  process_loop (S k) m p e w = (Ret v, m', w').
Proof. intros H. simpl. by rewrite H. Qed.

(** The handlers on an exception that is an [Exception] but not the usage
    limit: two ERROR records, then [break]. *)
Lemma except_clauses_ordinary m e w :
  isinstance_Exception e = true → is_usage_limit e = false →
  except_clauses m e w =
    (None,
     logging ERROR (TracebackOf e)
       (logging ERROR
          ((if isinstance_RuntimeError e then RuntimeErrorInState
            else ErrorInState) (state_name m) e) w)).
Proof.
  intros Hex Hul. unfold except_clauses, is_usage_limit in *.
  destruct (isinstance_RuntimeError e); simpl in *.
  - by rewrite Hul.
  - by rewrite Hex.
Qed.

Lemma except_clauses_usage_limit m e w :
  is_usage_limit e = true →
  except_clauses m e w = (Some e, logging ERROR (UsageLimitInState (state_name m)) w).
Proof.
  unfold except_clauses, is_usage_limit.
  intros [Hr Hc]%andb_true_iff. by rewrite Hr, Hc.
Qed.

Lemma try_body_action_raises m p extra w nm action_func next_state_func e d w1 :
  state m = Some (BaseState nm action_func next_state_func) →
  invoke action_func extra (data m) w = (Raise e, d, w1) →
  try_body m p extra w = Raised e (with_data m d) w1.
Proof. intros Hst Hact. unfold try_body. by rewrite Hst, Hact. Qed.

Lemma try_body_transition_raises m p extra w nm action_func next_state_func
    result d1 w1 e d w2 :
  state m = Some (BaseState nm action_func next_state_func) →
  invoke action_func extra (data m) w = (Ret result, d1, w1) →
  call_transition next_state_func result d1 w1 = (Raise e, d, w2) →
  try_body m p extra w = Raised e (with_data m d) w2.
Proof. intros Hst Hact Htr. unfold try_body. by rewrite Hst, Hact, Htr. Qed.

(** An iteration in which the action, or else the transition, of the
    current state raises [e], leaving the machine fields [d] and the world
    [w']. *)
Lemma state_raises_try_body m p extra w nm action_func next_state_func e d w' :
  state m = Some (BaseState nm action_func next_state_func) →
  invoke action_func extra (data m) w = (Raise e, d, w') ∨
  (∃ result d1 w1,
     invoke action_func extra (data m) w = (Ret result, d1, w1) ∧
     call_transition next_state_func result d1 w1 = (Raise e, d, w')) →
  try_body m p extra w = Raised e (with_data m d) w'.
Proof.
  intros Hst [Hact|(result & d1 & w1 & Hact & Htr)].
  - by eapply try_body_action_raises.
  - by eapply try_body_transition_raises.
Qed.

(** ** C1: an ordinary exception ends the run *)

(** C1, as the code has it: when [process] reaches a state whose action, or
    else whose transition, raises an exception that is an [Exception] and
    not the usage limit, [process] does not raise; it logs two ERROR
    records, one naming the failing state and one with the traceback, and
    returns [None], whatever the last computed result [previous_result]
    was. *)
Theorem process_ordinary_exception_returns_None
    m w n m1 previous_result extra_args w1 nm action_func next_state_func
    e d w2 fuel :
  reaches m w n m1 previous_result extra_args w1 →
  state m1 = Some (BaseState nm action_func next_state_func) →
  invoke action_func extra_args (data m1) w1 = (Raise e, d, w2) ∨
  (∃ result d1 w1',
     invoke action_func extra_args (data m1) w1 = (Ret result, d1, w1') ∧
     call_transition next_state_func result d1 w1' = (Raise e, d, w2)) →
  isinstance_Exception e = true →
  is_usage_limit e = false →
  n < fuel →
  process fuel m w =
    (Ret PNone, with_data m1 d,
     logging ERROR (TracebackOf e)
       (logging ERROR
          ((if isinstance_RuntimeError e then RuntimeErrorInState
            else ErrorInState) nm e) w2)).
Proof.
  intros Hr Hst Hraise Hex Hul Hlt.
  rewrite (process_from_reached _ _ _ _ _ _ _ _ Hr Hlt).
  destruct (fuel - n) as [|k] eqn:Hk; [lia|].
  rewrite (process_loop_raised _ _ _ _ _ _ _ _
             (state_raises_try_body _ previous_result _ _ _ _ _ _ _ _ Hst Hraise)).
  rewrite except_clauses_ordinary by done.
  unfold state_name. simpl. by rewrite Hst.
Qed.

(** With A returning 1 and B raising, the run is in B after one iteration
    with 1 as the last result, and [process] returns [None]. *)
Lemma process_ordinary_exception_returns_None_witness :
  ∃ m w m1 w1,
    build ex_A_then_failing_B "A" = (Ret m, w) ∧
    reaches m w 1 m1 (PInt 1) (PDict []) w1 ∧
    state_name m1 = "B" ∧
    invoke (raising_action boom) (PDict []) (data m1) w1 = (Raise boom, data m1, w1) ∧
    isinstance_Exception boom = true ∧
    is_usage_limit boom = false ∧
    process 10 m w =
      (Ret PNone, with_data m1 (data m1),
       logging ERROR (TracebackOf boom)
         (logging ERROR (ErrorInState "B" boom) w1)).
Proof.
  eexists _, _, _, _.
  split; [vm_compute; reflexivity|].
  split; [vm_compute; reflexivity|].
  split; [reflexivity|].
  split; [reflexivity|].
  split; [reflexivity|].
  split; [reflexivity|].
  eapply (process_ordinary_exception_returns_None _ _ 1 _ (PInt 1) (PDict []) _
            "B" (raising_action boom) (always (PStr "Exit")) boom).
  - vm_compute; reflexivity.
  - reflexivity.
  - left; reflexivity.
  - reflexivity.
  - reflexivity.
  - lia.
Defined.

(** C1 as stated fails: with A returning 1 and B raising ValueError,
    [process] returns [None], not the result 1 produced by A. *)
Lemma process_failing_B_loses_result_of_A :
  (build_and_process 10 ex_A_then_failing_B "A").1 = Ret PNone ∧
  (build_and_process 10 ex_A_then_failing_B "A").1 ≠ Ret (PInt 1) ∧
  log (build_and_process 10 ex_A_then_failing_B "A").2 =
    [ {| levelname := ERROR; message := ErrorInState "B" boom |};
      {| levelname := ERROR; message := TracebackOf boom |} ].
Proof.
  split; [vm_compute; reflexivity|].
  split; [vm_compute; discriminate|].
  vm_compute; reflexivity.
Qed.

(** ** C2: a transition value of the wrong shape *)

Lemma try_body_wrong_shape m p extra w nm action_func next_state_func
    result d1 w1 next_state_info d2 w2 :
  state m = Some (BaseState nm action_func next_state_func) →
  invoke action_func extra (data m) w = (Ret result, d1, w1) →
  call_transition next_state_func result d1 w1 = (Ret next_state_info, d2, w2) →
  wrong_shape next_state_info = true →
  try_body m p extra w = Raised transition_shape_error (with_data m d2) w2.
Proof.
  intros Hst Hact Htr Hshape. unfold try_body.
  rewrite Hst, Hact, Htr.
  destruct next_state_info; simpl in Hshape; try discriminate; reflexivity.
Qed.

(** C2, as the code has it: when a transition returns a value that is
    neither a string nor a tuple, the loop raises its ValueError inside its
    own [try] block; the generic handler catches it, logs two ERROR records
    (the state's name with the error, and the traceback), and [process]
    returns [None] instead of raising. *)
Theorem process_wrong_shape_returns_None
    m w n m1 previous_result extra_args w1 nm action_func next_state_func
    result d1 w2 next_state_info d2 w3 fuel :
  reaches m w n m1 previous_result extra_args w1 →
  state m1 = Some (BaseState nm action_func next_state_func) →
  invoke action_func extra_args (data m1) w1 = (Ret result, d1, w2) →
  call_transition next_state_func result d1 w2 = (Ret next_state_info, d2, w3) →
  wrong_shape next_state_info = true →
  n < fuel →
  process fuel m w =
    (Ret PNone, with_data m1 d2,
     logging ERROR (TracebackOf transition_shape_error)
       (logging ERROR (ErrorInState nm transition_shape_error) w3)).
Proof.
  intros Hr Hst Hact Htr Hshape Hlt.
  rewrite (process_from_reached _ _ _ _ _ _ _ _ Hr Hlt).
  destruct (fuel - n) as [|k] eqn:Hk; [lia|].
  rewrite (process_loop_raised _ _ _ _ _ _ _ _
             (try_body_wrong_shape _ _ _ _ _ _ _ _ _ _ _ _ _ Hst Hact Htr Hshape)).
  rewrite except_clauses_ordinary by reflexivity.
  unfold state_name. simpl. by rewrite Hst.
Qed.

(** The theorem at the machine whose first transition returns [None]. *)
Lemma process_wrong_shape_returns_None_witness :
  ∃ m w,
    build ex_transition_returns_None "A" = (Ret m, w) ∧
    reaches m w 0 m PNone (PDict []) w ∧
    wrong_shape PNone = true ∧
    process 10 m w =
      (Ret PNone, with_data m (data m),
       logging ERROR (TracebackOf transition_shape_error)
         (logging ERROR (ErrorInState "A" transition_shape_error) w)).
Proof.
  eexists _, _.
  split; [vm_compute; reflexivity|].
  split; [reflexivity|].
  split; [reflexivity|].
  eapply (process_wrong_shape_returns_None _ _ 0 _ PNone (PDict []) _ "A"
            _ _ (PInt 1) _ _ PNone).
  - reflexivity.
  - vm_compute; reflexivity.
  - vm_compute; reflexivity.
  - vm_compute; reflexivity.
  - reflexivity.
  - lia.
Defined.

(** C2 as stated fails: with a transition returning [None], or a number,
    [process] raises nothing; it returns [None] after logging the error. *)
Lemma process_wrong_shape_does_not_raise :
  (build_and_process 10 ex_transition_returns_None "A").1 = Ret PNone ∧
  (∀ e, (build_and_process 10 ex_transition_returns_None "A").1 ≠ Raise e) ∧
  (build_and_process 10 ex_transition_returns_number "A").1 = Ret PNone ∧
  (∀ e, (build_and_process 10 ex_transition_returns_number "A").1 ≠ Raise e) ∧
  log (build_and_process 10 ex_transition_returns_None "A").2 =
    [ {| levelname := ERROR; message := ErrorInState "A" transition_shape_error |};
      {| levelname := ERROR; message := TracebackOf transition_shape_error |} ].
Proof.
  repeat split; try (vm_compute; reflexivity); intros e; vm_compute; discriminate.
Qed.

(** ** C3: a transition naming an unregistered state *)

Lemma _create_states_loop_exit_reserved defs acc sts :
  exit_reserved acc →
  _create_states_loop defs acc = Ret sts →
  exit_reserved sts.
Proof.
  revert acc. induction defs as [|[nm cfg] defs IH]; intros acc Hacc H; simpl in H.
  - by inversion H; subst.
  - destruct (String.eqb nm "Exit") eqn:Hnm.
    + apply String.eqb_eq in Hnm as ->.
      eapply IH; [|exact H].
      intros st. rewrite lookup_insert_eq. congruence.
    + apply String.eqb_neq in Hnm.
      destruct (cfg_action cfg) as [a|]; [|discriminate].
      eapply IH; [|exact H].
      intros st. rewrite lookup_insert_ne by done. apply Hacc.
Qed.

(** Every registry built by [_create_states] keeps Exit for the exit state. *)
Lemma _create_states_exit_reserved defs sts :
  _create_states defs = Ret sts → exit_reserved sts.
Proof.
  apply _create_states_loop_exit_reserved.
  intros st. by rewrite lookup_empty.
Qed.

Lemma try_body_unknown_name m p extra w nm action_func next_state_func
    result d1 w1 next_state_info next rest d2 w2 :
  state m = Some (BaseState nm action_func next_state_func) →
  invoke action_func extra (data m) w = (Ret result, d1, w1) →
  call_transition next_state_func result d1 w1 = (Ret next_state_info, d2, w2) →
  next_state_info = PStr next ∨ next_state_info = PTuple (PStr next :: rest) →
  states m !! next = None →
  ∃ extra', try_body m p extra w =
    Next (with_state (with_data m d2) (Some ExitState)) result extra' w2.
Proof.
  intros Hst Hact Htr Hinfo Hnone. unfold try_body.
  rewrite Hst, Hact, Htr.
  destruct Hinfo as [-> | ->]; simpl.
  - rewrite Hnone. by eexists.
  - unfold states_get. simpl. rewrite Hnone. by eexists.
Qed.

(** C3, as the code has it: when a transition returns a name that is not in
    the registry (alone or as the first item of a tuple), [process] does not
    raise; the next state is the exit state, the same state the name Exit
    selects, and [process] returns the result of the action just run. The
    world is left as the transition left it: the loop logs no warning and
    no other record. *)
Theorem process_unknown_name_exits_silently
    m w n m1 previous_result extra_args w1 nm action_func next_state_func
    result d1 w2 next_state_info next rest d2 w3 fuel :
  reaches m w n m1 previous_result extra_args w1 →
  state m1 = Some (BaseState nm action_func next_state_func) →
  invoke action_func extra_args (data m1) w1 = (Ret result, d1, w2) →
  call_transition next_state_func result d1 w2 = (Ret next_state_info, d2, w3) →
  next_state_info = PStr next ∨ next_state_info = PTuple (PStr next :: rest) →
  states m1 !! next = None →
  exit_reserved (states m1) →
  S n < fuel →
  process fuel m w =
    (Ret result, with_state (with_data m1 d2) (Some ExitState), w3) ∧
  states_get (states m1) (PStr next) = states_get (states m1) (PStr "Exit").
Proof.
  intros Hr Hst Hact Htr Hinfo Hnone Hres Hlt. split.
  - rewrite (process_from_reached _ _ _ _ _ _ _ _ Hr) by lia.
    destruct (fuel - n) as [|[|k]] eqn:Hk; [lia|lia|].
    destruct (try_body_unknown_name _ previous_result _ _ _ _ _ _ _ _ _ _ rest _ _
                Hst Hact Htr Hinfo Hnone) as [extra' Hb].
    cbn [process_loop]. rewrite Hb. reflexivity.
  - unfold states_get. simpl. rewrite Hnone. simpl.
    destruct (states m1 !! "Exit") as [st|] eqn:Hex; [|done].
    by rewrite (Hres st Hex).
Qed.

(** The theorem at the machine whose only transition names Nowhere. *)
Lemma process_unknown_name_exits_silently_witness :
  ∃ m w,
    build ex_unknown_next_state "A" = (Ret m, w) ∧
    reaches m w 0 m PNone (PDict []) w ∧
    states m !! "Nowhere" = None ∧
    exit_reserved (states m) ∧
    process 10 m w =
      (Ret (PInt 1), with_state (with_data m (data m)) (Some ExitState), w) ∧
    states_get (states m) (PStr "Nowhere") = states_get (states m) (PStr "Exit").
Proof.
  eexists _, _.
  split; [vm_compute; reflexivity|].
  split; [reflexivity|].
  split; [vm_compute; reflexivity|].
  split; [intros st H; vm_compute in H; by inversion H|].
  eapply (process_unknown_name_exits_silently _ _ 0 _ PNone (PDict []) _ "A"
            _ _ (PInt 1) _ _ (PStr "Nowhere") "Nowhere" []).
  - reflexivity.
  - vm_compute; reflexivity.
  - vm_compute; reflexivity.
  - vm_compute; reflexivity.
  - left; reflexivity.
  - vm_compute; reflexivity.
  - intros st H; vm_compute in H; by inversion H.
  - lia.
Defined.

(** C3 as stated fails: the run that names the unregistered state Nowhere
    returns normally and leaves the log empty, so no warning is observable. *)
Lemma process_unknown_name_logs_nothing :
  (build_and_process 10 ex_unknown_next_state "A").1 = Ret (PInt 1) ∧
  log (build_and_process 10 ex_unknown_next_state "A").2 = [] ∧
  ¬ ∃ r, r ∈ log (build_and_process 10 ex_unknown_next_state "A").2 ∧
         levelname r = WARNING.
Proof.
  split; [vm_compute; reflexivity|].
  split; [vm_compute; reflexivity|].
  intros [r [Hin _]].
  replace (log (build_and_process 10 ex_unknown_next_state "A").2)
    with (@nil LogRecord) in Hin by (vm_compute; reflexivity).
  by apply not_elem_of_nil in Hin.
Qed.

(** ** C4: merging the child's account into the parent *)

Lemma deref_insert_eq (w : World) (l : loc) (v : list Msg) :
  l < length (heap w) →
  default [] (<[l := v]> (heap w) !! l) = v.
Proof. intros H. by rewrite list_lookup_insert_eq. Qed.

Lemma deref_list_extend_eq w l other :
  l < length (heap w) →
  deref (list_extend l other w) l = deref w l ++ deref w other.
Proof. intros H. unfold deref at 1, list_extend. simpl. by apply deref_insert_eq. Qed.

Lemma deref_list_extend_ne w l other l' :
  l' ≠ l → deref (list_extend l other w) l' = deref w l'.
Proof.
  intros H. unfold deref, list_extend. simpl.
  by rewrite list_lookup_insert_ne.
Qed.


Lemma deref_list_append_ne w l msg l' :
  l' ≠ l → deref (list_append l msg w) l' = deref w l'.
Proof.
  intros H. unfold deref, list_append. simpl.
  by rewrite list_lookup_insert_ne.
Qed.

(** What the composer does once the child's [process] has returned: the
    counters are added, the child's list is appended to the parent's, and
    the save option only decides the result record and the outcome. *)
Lemma sub_state_machine_action_returned
    env fuel defs init cls save_option kwargs machine w
    sub_context w1 sub_machine w2 sub_result sub_machine' w3 :
  cls kwargs w = (Ret sub_context, w1) →
  StateMachine__init__ env sub_context defs init
    (config_path (config machine)) w1 = (Ret sub_machine, w2) →
  process fuel sub_machine w2 = (Ret sub_result, sub_machine', w3) →
  let merged := add_tokens (total_input_tokens (data sub_machine'))
                  (total_output_tokens (data sub_machine')) machine in
  let w' := list_extend (messages machine) (messages (data sub_machine')) w3 in
  sub_state_machine_action env fuel defs init cls save_option kwargs machine w =
    if String.eqb save_option "prompt" then
      (Ret sub_result, analysis_result_append (ctx_self sub_context) merged, w')
    else if String.eqb save_option "result" then
      (Ret sub_result, analysis_result_append sub_result merged, w')
    else if String.eqb save_option "both" then
      (Ret sub_result,
       analysis_result_append
         (PDict [("context", ctx_self sub_context); ("result", sub_result)])
         merged, w')
    else (Raise invalid_save_option, merged, w').
Proof.
  intros Hc Hi Hp. unfold sub_state_machine_action.
  rewrite Hc, Hi, Hp. reflexivity.
Qed.

(** C4: once the child's [process] has returned, the composer adds the
    child's input and output token counters to the parent's, once, and
    appends the child's messages after the messages the parent's list holds
    at that moment; every other list object and the log are untouched. This
    holds for every save option, before the action returns or raises. *)
Theorem sub_state_machine_action_merges
    env fuel defs init cls save_option kwargs machine w
    sub_context w1 sub_machine w2 sub_result sub_machine' w3 :
  cls kwargs w = (Ret sub_context, w1) →
  StateMachine__init__ env sub_context defs init
    (config_path (config machine)) w1 = (Ret sub_machine, w2) →
  process fuel sub_machine w2 = (Ret sub_result, sub_machine', w3) →
  messages machine < length (heap w3) →
  let r := sub_state_machine_action env fuel defs init cls save_option
             kwargs machine w in
  total_input_tokens r.1.2 =
    (total_input_tokens machine + total_input_tokens (data sub_machine'))%Z ∧
  total_output_tokens r.1.2 =
    (total_output_tokens machine + total_output_tokens (data sub_machine'))%Z ∧
  messages r.1.2 = messages machine ∧
  deref r.2 (messages machine) =
    deref w3 (messages machine) ++ deref w3 (messages (data sub_machine')) ∧
  (∀ l, l ≠ messages machine → deref r.2 l = deref w3 l) ∧
  log r.2 = log w3.
Proof.
  intros Hc Hi Hp Hl r. subst r.
  rewrite (sub_state_machine_action_returned _ _ _ _ _ save_option _ _ _ _ _ _ _ _ _ _
             Hc Hi Hp).
  repeat case_match; simpl;
    (repeat split; try reflexivity;
     [ by apply deref_list_extend_eq
     | by intros l Hne; apply deref_list_extend_ne ]).
Qed.

(** The merge of the example: a child ending with counters 5 and 7 and
    messages [a, b], run from a parent with counters 2 and 3 and messages
    [x], leaves the parent with 7, 10 and [x, a, b]. *)
Lemma sub_state_machine_action_merges_witness :
  ∃ sub_context w1 sub_machine w2 sub_machine' w3,
    ex_child_context [] ex_parent_world = (Ret sub_context, w1) ∧
    StateMachine__init__ ex_env sub_context ex_child "Work"
      (config_path (config ex_parent)) w1 = (Ret sub_machine, w2) ∧
    process 10 sub_machine w2 = (Ret (PStr "done"), sub_machine', w3) ∧
    messages ex_parent < length (heap w3) ∧
    (total_input_tokens ex_parent = 2%Z ∧ total_output_tokens ex_parent = 3%Z ∧
     deref w3 (messages ex_parent) = [msg_x]) ∧
    (total_input_tokens (data sub_machine') = 5%Z ∧
     total_output_tokens (data sub_machine') = 7%Z ∧
     deref w3 (messages (data sub_machine')) = [msg_a; msg_b]) ∧
    let r := sub_state_machine_action ex_env 10 ex_child "Work" ex_child_context
               "result" [] ex_parent ex_parent_world in
    total_input_tokens r.1.2 = 7%Z ∧
    total_output_tokens r.1.2 = 10%Z ∧
    deref r.2 (messages ex_parent) = [msg_x; msg_a; msg_b].
Proof.
  eexists _, _, _, _, _, _.
  split; [reflexivity|].
  split; [vm_compute; reflexivity|].
  split; [vm_compute; reflexivity|].
  split; [vm_compute; lia|].
  split; [repeat split; vm_compute; reflexivity|].
  split; [repeat split; vm_compute; reflexivity|].
  intros r.
  destruct (sub_state_machine_action_merges ex_env 10 ex_child "Work"
              ex_child_context "result" [] ex_parent ex_parent_world
              _ _ _ _ _ _ _ eq_refl eq_refl eq_refl ltac:(vm_compute; lia))
    as (Hi & Ho & _ & Hm & _).
  fold r in Hi, Ho, Hm.
  rewrite Hi, Ho, Hm.
  repeat split; vm_compute; reflexivity.
Defined.

(** ** C5: the retrying invoker on empty responses *)

Section RetryLoops.

Variable client : openai.Client.
Variable max_retries : Z.

Lemma all_empty_step k w w' :
  calls w' = S (calls w) → all_empty client (S k) w → all_empty client k w'.
Proof.
  intros Hc H i params Hi. rewrite Hc.
  replace (S (calls w) + i) with (calls w + S i) by lia.
  apply H. lia.
Qed.

Lemma standard_loop_all_empty params k :
  ∀ fuel retries w,
    (retries + Z.of_nat k = max_retries)%Z → k < fuel → all_empty client k w →
    ∃ w', standard_loop fuel client params max_retries retries w = (Ret None, w') ∧
          calls w' = calls w + k ∧ heap w' = heap w.
Proof.
  induction k as [|k IH]; intros fuel retries w Hr Hf He;
    (destruct fuel as [|fuel]; [lia|]); simpl.
  - replace (retries <? max_retries)%Z with false
      by (symmetry; apply Z.ltb_ge; lia).
    eexists; repeat split; simpl; lia.
  - replace (retries <? max_retries)%Z with true
      by (symmetry; apply Z.ltb_lt; lia).
    destruct (He 0 params ltac:(lia)) as (r & Hp & Hempty).
    rewrite Nat.add_0_r in Hp. rewrite Hp.
    unfold empty_content in Hempty.
    destruct (openai.choices r) as [|c cs]; [discriminate|].
    rewrite Hempty.
    match goal with
    | |- context [standard_loop _ _ _ _ _ ?W] =>
        destruct (IH fuel (retries + 1)%Z W) as (w' & Hl & Hc & Hh);
          [lia | lia | by apply (all_empty_step _ w) |]
    end.
    exists w'. rewrite Hl. simpl in Hc, Hh. repeat split; [lia|done].
Qed.

Lemma openrouter_loop_all_empty params debug k :
  ∀ fuel retries w,
    (retries + Z.of_nat k = max_retries)%Z → k < fuel → all_empty client k w →
    ∃ w', openrouter_loop fuel client params debug max_retries retries w
            = (Ret None, w') ∧
          calls w' = calls w + k ∧ heap w' = heap w.
Proof.
  induction k as [|k IH]; intros fuel retries w Hr Hf He;
    (destruct fuel as [|fuel]; [lia|]); simpl.
  - replace (retries <? max_retries)%Z with false
      by (symmetry; apply Z.ltb_ge; lia).
    eexists; repeat split; simpl; lia.
  - replace (retries <? max_retries)%Z with true
      by (symmetry; apply Z.ltb_lt; lia).
    set (wd := if debug then logging INFO (Text "OpenRouter request params") w
               else w).
    assert (Hwd : calls wd = calls w ∧ heap wd = heap w)
      by (subst wd; destruct debug; done).
    destruct Hwd as [Hcd Hhd]. rewrite Hcd.
    destruct (He 0 params ltac:(lia)) as (r & Hp & Hempty).
    rewrite Nat.add_0_r in Hp. rewrite Hp.
    unfold empty_content in Hempty.
    assert (Hem : match openai.choices r with
                  | [] => true
                  | c :: _ => str_falsy (openai.content (openai.message c))
                  end = true)
      by (destruct (openai.choices r); [discriminate|done]).
    rewrite Hem.
    match goal with
    | |- context [openrouter_loop _ _ _ _ _ _ ?W] =>
        destruct (IH fuel (retries + 1)%Z W) as (w' & Hl & Hc & Hh);
          [lia | lia | apply (all_empty_step _ w); [simpl; by rewrite Hcd|done] |]
    end.
    exists w'. rewrite Hl. simpl in Hc, Hh. rewrite Hcd in Hc.
    repeat split; [lia|congruence].
Qed.

End RetryLoops.



(** The same run through the OpenRouter branch, with two attempts. *)
Example reliable_parse_openrouter_two_empty :
  let r := reliable_parse ex_empty_client [] (Some 2%Z) false
             (Some ex_openrouter_info) ex_world in
  r.1 = Ret None ∧ calls r.2 = 2.
Proof. vm_compute. split; reflexivity. Qed.

(** The loop stops at the first response with content: two empty answers,
    then text, make three calls. *)
Example reliable_parse_third_call_succeeds :
  let r := reliable_parse ex_slow_client [] None false None ex_world in
  r.1 = Ret (Some ex_text_response) ∧ calls r.2 = 3.
Proof. vm_compute. split; reflexivity. Qed.

(** The check made before the loop: an OpenRouter descriptor without an API
    key raises ValueError and no call is issued. *)
Example reliable_parse_openrouter_without_key :
  let r := reliable_parse ex_empty_client [] (Some 3%Z) false
             (Some [("provider", PStr "openrouter")]) ex_world in
  r.1 = Raise {| exn_cls := ValueError;
                 exn_str := "OpenRouter API key not found in model_info" |} ∧
  calls r.2 = 0.
Proof. vm_compute. split; reflexivity. Qed.

(** ** C6: the usage limit propagates through every layer *)

Lemma process_action_usage_limit
    m w n m1 previous_result extra_args w1 nm action_func next_state_func
    e d w2 fuel :
  reaches m w n m1 previous_result extra_args w1 →
  state m1 = Some (BaseState nm action_func next_state_func) →
  invoke action_func extra_args (data m1) w1 = (Raise e, d, w2) →
  is_usage_limit e = true →
  n < fuel →
  process fuel m w =
    (Raise e, with_data m1 d, logging ERROR (UsageLimitInState nm) w2).
Proof.
  intros Hr Hst Hact Hul Hlt.
  rewrite (process_from_reached _ _ _ _ _ _ _ _ Hr Hlt).
  destruct (fuel - n) as [|k] eqn:Hk; [lia|].
  rewrite (process_loop_raised _ _ _ _ _ _ _ _
             (try_body_action_raises _ _ _ _ _ _ _ _ _ _ Hst Hact)).
  rewrite except_clauses_usage_limit by done.
  unfold state_name. simpl. by rewrite Hst.
Qed.

Lemma sub_state_machine_action_child_raises
    env fuel defs init cls save_option kwargs machine w
    sub_context w1 sub_machine w2 e sub_machine' w3 :
  cls kwargs w = (Ret sub_context, w1) →
  StateMachine__init__ env sub_context defs init
    (config_path (config machine)) w1 = (Ret sub_machine, w2) →
  process fuel sub_machine w2 = (Raise e, sub_machine', w3) →
  sub_state_machine_action env fuel defs init cls save_option kwargs machine w =
    (Raise e, machine, w3).
Proof.
  intros Hc Hi Hp. unfold sub_state_machine_action. by rewrite Hc, Hi, Hp.
Qed.

Lemma agent_action_reraises prompt_template run_query kwargs machine w
    prompt e machine' w' :
  prompt_template kwargs = Ret prompt →
  run_query prompt machine w = (Raise e, machine', w') →
  agent_action prompt_template run_query kwargs machine w =
    (Raise e, machine', agent_except e w').
Proof. intros Hp Hq. unfold agent_action. by rewrite Hp, Hq. Qed.

(** C6: the usage-limit error leaves every layer as the exception it
    entered with. (1) When [process] reaches a state whose action raises it,
    [process] raises that same exception; the loop adds one ERROR record
    and returns no result. (2) An exception raised by the child's [process]
    leaves the composer unchanged, with the parent's fields untouched.
    (3) An exception raised inside the agent action's [try] block leaves the
    action unchanged. *)
Theorem usage_limit_propagates_unmodified :
  (∀ m w n m1 previous_result extra_args w1 nm action_func next_state_func
     e d w2 fuel,
     reaches m w n m1 previous_result extra_args w1 →
     state m1 = Some (BaseState nm action_func next_state_func) →
     invoke action_func extra_args (data m1) w1 = (Raise e, d, w2) →
     is_usage_limit e = true →
     n < fuel →
     process fuel m w =
       (Raise e, with_data m1 d, logging ERROR (UsageLimitInState nm) w2)) ∧
  (∀ env fuel defs init cls save_option kwargs machine w
     sub_context w1 sub_machine w2 e sub_machine' w3,
     cls kwargs w = (Ret sub_context, w1) →
     StateMachine__init__ env sub_context defs init
       (config_path (config machine)) w1 = (Ret sub_machine, w2) →
     process fuel sub_machine w2 = (Raise e, sub_machine', w3) →
     sub_state_machine_action env fuel defs init cls save_option kwargs
       machine w = (Raise e, machine, w3)) ∧
  (∀ prompt_template run_query kwargs machine w prompt e machine' w',
     prompt_template kwargs = Ret prompt →
     run_query prompt machine w = (Raise e, machine', w') →
     agent_action prompt_template run_query kwargs machine w =
       (Raise e, machine', agent_except e w')).
Proof.
  split; [|split].
  - intros. by eapply process_action_usage_limit.
  - intros. by eapply sub_state_machine_action_child_raises.
  - intros. by eapply agent_action_reraises.
Qed.

(** The three parts at a concrete run: B's agent action meets the usage
    limit after A returned 1; the error leaves the action, then [process]
    of that machine, then the composer of a parent that delegates to it,
    then the parent's [process]. *)
Lemma usage_limit_propagates_unmodified_witness :
  is_usage_limit usage_limit = true ∧
  (∀ d w, agent_action (fun _ => Ret "prompt")
            (fun _ d w => (Raise usage_limit, d, w)) [] d w =
          (Raise usage_limit, d, agent_except usage_limit w)) ∧
  (∃ m w m1 w1,
     build ex_A_then_limit_in_B "A" = (Ret m, w) ∧
     reaches m w 1 m1 (PInt 1) (PDict []) w1 ∧
     process 10 m w =
       (Raise usage_limit, with_data m1 (data m1),
        logging ERROR (UsageLimitInState "B")
          (agent_except usage_limit w1))) ∧
  (∃ m w,
     build ex_parent_of_limit "Delegate" = (Ret m, w) ∧
     (process 10 m w).1.1 = Raise usage_limit).
Proof.
  destruct usage_limit_propagates_unmodified as (Hloop & Hsub & Hagent).
  split; [reflexivity|].
  split; [intros d w; by apply (Hagent _ _ _ _ _ "prompt")|].
  split.
  - eexists _, _, _, _.
    split; [vm_compute; reflexivity|].
    split; [vm_compute; reflexivity|].
    eapply (Hloop _ _ 1 _ (PInt 1) (PDict []) _ "B").
    + vm_compute; reflexivity.
    + vm_compute; reflexivity.
    + vm_compute; reflexivity.
    + reflexivity.
    + lia.
  - eexists _, _.
    split; [vm_compute; reflexivity|].
    erewrite (Hloop _ _ 0 _ PNone (PDict []) _ "Delegate" _ _ usage_limit).
    + reflexivity.
    + reflexivity.
    + vm_compute; reflexivity.
    + vm_compute; reflexivity.
    + reflexivity.
    + lia.
Defined.

(** ** C7: what the constructor checks in the registry *)

Lemma _create_states_loop_total defs acc :
  actions_present defs → ∃ sts, _create_states_loop defs acc = Ret sts.
Proof.
  revert acc. induction defs as [|[nm cfg] defs IH]; intros acc Hact; simpl.
  - by eexists.
  - assert (Hrest : actions_present defs).
    { intros nm' cfg' Hin. apply Hact. by right. }
    destruct (String.eqb nm "Exit") eqn:Hnm; [by apply IH|].
    apply String.eqb_neq in Hnm.
    destruct (Hact nm cfg ltac:(left) Hnm) as [a ->].
    by apply IH.
Qed.

Lemma _create_states_loop_dom defs acc sts nm :
  _create_states_loop defs acc = Ret sts →
  sts !! nm = None ↔ acc !! nm = None ∧ nm ∉ defs.*1.
Proof.
  revert acc. induction defs as [|[nm' cfg] defs IH]; intros acc H; simpl in *.
  - inversion H; subst. split; [intros; split; [done|apply not_elem_of_nil]|tauto].
  - assert (Hstep : ∀ st, _create_states_loop defs (<[nm' := st]> acc) = Ret sts →
              sts !! nm = None ↔ acc !! nm = None ∧ nm ∉ nm' :: defs.*1).
    { intros st Hl. rewrite (IH _ Hl), not_elem_of_cons.
      destruct (decide (nm' = nm)) as [->|Hne].
      - rewrite lookup_insert_eq. split; [intros [? _]; done|intros [_ [? _]]; done].
      - rewrite lookup_insert_ne by done. split; [intros [? ?]|intros [? [_ ?]]]; auto. }
    destruct (String.eqb nm' "Exit"); [by eapply Hstep|].
    destruct (cfg_action cfg); [by eapply Hstep|discriminate].
Qed.

Lemma _create_states_dom defs sts nm :
  _create_states defs = Ret sts → sts !! nm = None ↔ nm ∉ defs.*1.
Proof.
  intros H. rewrite (_create_states_loop_dom _ _ _ nm H), lookup_empty. tauto.
Qed.

(** C7, as the code has it: once the environment is loaded and every entry
    other than Exit has an action, the constructor raises its ValueError
    exactly when the initial state's name is not a key of the registry, and
    otherwise returns the machine standing in that state. Whether the
    registry has an Exit entry plays no part: in either case the lookup the
    loop makes for the name Exit yields the exit state. *)
Theorem StateMachine__init___checks_initial_state_only
    env context defs initial path w cfg cl w1 :
  load_environment env path w = (Ret (cfg, cl), w1) →
  actions_present defs →
  ∃ sts, _create_states defs = Ret sts ∧
    (initial ∉ defs.*1 →
       ∃ w2, StateMachine__init__ env context defs initial path w =
               (Raise initial_state_error, w2)) ∧
    (initial ∈ defs.*1 →
       ∃ m w2, StateMachine__init__ env context defs initial path w = (Ret m, w2) ∧
               states m = sts ∧ state m = sts !! initial ∧ is_Some (state m)) ∧
    states_get sts (PStr "Exit") = inr ExitState.
Proof.
  intros Henv Hact.
  destruct (_create_states_loop_total defs ∅ Hact) as [sts Hsts].
  exists sts. split; [exact Hsts|].
  pose proof (_create_states_dom defs sts initial Hsts) as Hdom.
  unfold StateMachine__init__. rewrite Henv.
  fold (_create_states defs) in Hsts.
  destruct (match ctx_messages context with
            | Some l => (l, w1) | None => alloc_list w1 end) as [l w2] eqn:Hm.
  rewrite Hsts.
  split; [|split].
  - intros Hnin. apply Hdom in Hnin. exists w2. by rewrite Hnin.
  - intros Hin. destruct (sts !! initial) as [st|] eqn:Hl.
    + eexists _, _. split; [reflexivity|]. simpl. eauto.
    + exfalso. by apply Hdom in Hin.
  - unfold states_get. simpl.
    destruct (sts !! "Exit") as [st|] eqn:Hex; [|done]. simpl.
    by rewrite (_create_states_exit_reserved defs sts Hsts st Hex).
Qed.

(** The theorem at the registry that has state A and no Exit entry. *)
Lemma StateMachine__init___checks_initial_state_only_witness :
  load_environment ex_env "" ex_world =
    (Ret ({| config_path := ""; top_p := PFloat "1.0" |}, []), ex_world) ∧
  actions_present ex_no_exit_entry ∧
  ("Exit" ∉ ex_no_exit_entry.*1) ∧
  "A" ∈ ex_no_exit_entry.*1 ∧
  ∃ m w2, build ex_no_exit_entry "A" = (Ret m, w2) ∧ is_Some (state m).
Proof.
  assert (Hact : actions_present ex_no_exit_entry).
  { intros nm cfg Hin _. apply list_elem_of_singleton in Hin.
    inversion Hin; subst. by eexists. }
  split; [reflexivity|].
  split; [exact Hact|].
  split; [by apply not_elem_of_cons; split; [|apply not_elem_of_nil]|].
  split; [by left|].
  destruct (StateMachine__init___checks_initial_state_only ex_env ex_context
              ex_no_exit_entry "A" "" ex_world _ _ _ eq_refl Hact)
    as (sts & _ & _ & Hin & _).
  destruct (Hin ltac:(by left)) as (m & w2 & Hb & _ & _ & Hs).
  by exists m, w2.
Defined.

(** C7 as stated fails: over a registry with no Exit entry the constructor
    raises nothing, and the machine runs to completion. *)
Lemma StateMachine__init___accepts_registry_without_Exit :
  ("Exit" ∉ ex_no_exit_entry.*1) ∧
  (∃ m w, build ex_no_exit_entry "A" = (Ret m, w)) ∧
  (∀ e, (build ex_no_exit_entry "A").1 ≠ Raise e) ∧
  (build_and_process 10 ex_no_exit_entry "A").1 = Ret (PInt 1).
Proof.
  split; [by apply not_elem_of_cons; split; [|apply not_elem_of_nil]|].
  split; [eexists _, _; vm_compute; reflexivity|].
  split; [intros e; vm_compute; discriminate|].
  vm_compute; reflexivity.
Qed.

(** ** C8: the save options of the composer *)

(** The composer returns for the three options it names and raises its
    ValueError for every other one, after the merge in each case. *)
Lemma sub_state_machine_action_save_options
    env fuel defs init cls save_option kwargs machine w
    sub_context w1 sub_machine w2 sub_result sub_machine' w3 :
  cls kwargs w = (Ret sub_context, w1) →
  StateMachine__init__ env sub_context defs init
    (config_path (config machine)) w1 = (Ret sub_machine, w2) →
  process fuel sub_machine w2 = (Ret sub_result, sub_machine', w3) →
  let r := sub_state_machine_action env fuel defs init cls save_option
             kwargs machine w in
  (save_option ∈ ["prompt"; "result"; "both"] → r.1.1 = Ret sub_result) ∧
  (save_option ∉ ["prompt"; "result"; "both"] → r.1.1 = Raise invalid_save_option).
Proof.
  intros Hc Hi Hp r. subst r.
  rewrite (sub_state_machine_action_returned _ _ _ _ _ save_option _ _ _ _ _ _ _ _ _ _
             Hc Hi Hp).
  destruct (String.eqb save_option "prompt") eqn:E1;
    [apply String.eqb_eq in E1 as ->; split; [done|intros H; exfalso; apply H; set_solver]|].
  destruct (String.eqb save_option "result") eqn:E2;
    [apply String.eqb_eq in E2 as ->; split; [done|intros H; exfalso; apply H; set_solver]|].
  destruct (String.eqb save_option "both") eqn:E3;
    [apply String.eqb_eq in E3 as ->; split; [done|intros H; exfalso; apply H; set_solver]|].
  apply String.eqb_neq in E1, E2, E3.
  split; [|done]. intros H.
  repeat (apply elem_of_cons in H as [->|H]; [done|]).
  by apply elem_of_nil in H.
Qed.

(** C8 at the failing input: with the save option none, which the
    docstring of [call_sub_state_machine_action] lists and [chat_action]
    accepts, the composer merges the child's counters and messages and then
    raises its ValueError instead of returning the child's result. *)
Theorem sub_state_machine_action_rejects_none :
  let r := sub_state_machine_action ex_env 10 ex_child "Work" ex_child_context
             "none" [] ex_parent ex_parent_world in
  r.1.1 = Raise invalid_save_option ∧
  total_input_tokens r.1.2 = 7%Z ∧
  total_output_tokens r.1.2 = 10%Z ∧
  deref r.2 (messages ex_parent) = [msg_x; msg_a; msg_b] ∧
  analysis_result r.1.2 = [] ∧
  let c := chat_action (fun _ => Ret "hi") None "none" "m" false []
             ex_chat_machine ex_parent_world in
  c.1.1 = Ret (PStr "ok") ∧
  analysis_result c.1.2 = [] ∧
  deref c.2 (messages ex_chat_machine) =
    [msg_x; {| role := "user"; content := PStr "hi" |};
     {| role := "assistant"; content := PStr "ok" |}].
Proof. vm_compute. repeat split; reflexivity. Qed.

(** ** C9: how the loop chooses the calling convention *)

(** The choice rests on the length of [co_varnames], which counts the local
    variables along with the declared parameters. *)
Lemma invoke_by_co_varnames action_func extra_args machine w :
  invoke action_func extra_args machine w =
    if 1 <? length (co_params action_func) + length (option_list (co_var_kw action_func))
            + length (co_locals action_func)
    then call_unpacking action_func
           (if truthy extra_args then extra_args else PDict []) machine w
    else call action_func [] machine w.
Proof.
  unfold invoke, co_varnames.
  by rewrite !length_app, length_fmap, Nat.add_assoc.
Qed.

(** An action whose only name is the machine parameter is called with the
    machine alone, whatever is pending. *)
Lemma invoke_single_name action_func extra_args machine w :
  length (co_varnames action_func) ≤ 1 →
  invoke action_func extra_args machine w = call action_func [] machine w.
Proof.
  intros H. unfold invoke.
  by replace (1 <? length (co_varnames action_func)) with false
    by (symmetry; apply Nat.ltb_ge; lia).
Qed.

(** C9 at the failing input: S2's action declares the machine parameter
    only and has one other local variable. The loop hands it the pending
    bag as keyword arguments, the call fails with TypeError, and [process]
    returns [None]; the same action without the local variable is called
    with no extra argument and the run returns its result 2. *)
Theorem invoke_counts_local_variables :
  (co_params ex_action_with_local).*1 = ["machine"] ∧
  co_var_kw ex_action_with_local = None ∧
  co_varnames ex_action_with_local = ["machine"; "tmp"] ∧
  (∀ d w,
     invoke ex_action_with_local (PDict [("k", PInt 1)]) d w =
       (Raise (type_error "got an unexpected keyword argument"), d, w)) ∧
  (∀ d w,
     invoke (returning (PInt 2)) (PDict [("k", PInt 1)]) d w = (Ret (PInt 2), d, w)) ∧
  (build_and_process 10 (ex_bag_for ex_action_with_local) "S1").1 = Ret PNone ∧
  log (build_and_process 10 (ex_bag_for ex_action_with_local) "S1").2 =
    [ {| levelname := ERROR;
         message := ErrorInState "S2"
                      (type_error "got an unexpected keyword argument") |};
      {| levelname := ERROR;
         message := TracebackOf (type_error "got an unexpected keyword argument") |} ] ∧
  (build_and_process 10 (ex_bag_for (returning (PInt 2))) "S1").1 = Ret (PInt 2).
Proof.
  repeat split; try (vm_compute; reflexivity); intros d w; reflexivity.
Qed.

(** ** C10: the machine's message log is the context's list *)





Lemma standard_loop_heap fuel client params max_retries :
  ∀ retries w, heap (standard_loop fuel client params max_retries retries w).2 = heap w.
Proof.
  induction fuel as [|fuel IH]; intros retries w; simpl; [done|].
  repeat case_match; simpl; try done. by rewrite IH.
Qed.

Lemma openrouter_loop_heap fuel client params debug max_retries :
  ∀ retries w,
    heap (openrouter_loop fuel client params debug max_retries retries w).2 = heap w.
Proof.
  induction fuel as [|fuel IH]; intros retries w; simpl; [done|].
  repeat case_match; simpl; try done; by rewrite IH.
Qed.

(** [reliable_parse] touches the log and the call counter only. *)
Lemma reliable_parse_heap client params max_retries debug model_info w :
  heap (reliable_parse client params max_retries debug model_info w).2 = heap w.
Proof.
  unfold reliable_parse.
  destruct (is_openrouter model_info); [|by rewrite standard_loop_heap].
  destruct (truthy _); [|done].
  rewrite openrouter_loop_heap. by repeat case_match.
Qed.






Lemma states_get_from_registry sts key st :
  states_get sts key = inr st → st = ExitState ∨ ∃ nm, sts !! nm = Some st.
Proof.
  unfold states_get. intros H.
  destruct (hashable key); [|discriminate].
  destruct key; inversion H; subst; auto.
  destruct (sts !! s) as [st'|] eqn:Hs; simpl; eauto.
Qed.





(** What a successful construction leaves behind. *)
Lemma StateMachine__init___returned env context defs initial path w m w2 :
  StateMachine__init__ env context defs initial path w = (Ret m, w2) →
  ∃ cfg cl w1,
    load_environment env path w = (Ret (cfg, cl), w1) ∧
    _create_states defs = Ret (states m) ∧
    state m = states m !! initial ∧ is_Some (state m) ∧
    (messages (data m), w2) =
      match ctx_messages context with
      | Some l => (l, w1)
      | None => alloc_list w1
      end.
Proof.
  unfold StateMachine__init__. intros H.
  destruct (load_environment env path w) as [[[cfg cl]| |] w1]; try discriminate.
  exists cfg, cl, w1. split; [done|].
  destruct (match ctx_messages context with
            | Some l => (l, w1) | None => alloc_list w1 end) as [l w3].
  destruct (_create_states defs) as [sts| |]; try discriminate.
  destruct (sts !! initial) as [st|] eqn:Hst; [|discriminate].
  inversion H; subst; simpl. rewrite Hst. eauto.
Qed.




(** * Further properties *)

(** ** The execution loop *)

Lemma process_reaches_exit m w n m1 previous_result extra_args w1 fuel :
  reaches m w n m1 previous_result extra_args w1 →
  state m1 = Some ExitState ∨ state m1 = None →
  n < fuel →
  process fuel m w = (Ret previous_result, m1, w1).
Proof.
  intros Hr Hst Hlt.
  rewrite (process_from_reached _ _ _ _ _ _ _ _ Hr Hlt).
  destruct (fuel - n) as [|k] eqn:Hk; [lia|].
  apply process_loop_returned. unfold try_body.
  by destruct Hst as [-> | ->].
Qed.

Lemma reaches_S m w n m1 p1 e1 w1 m2 p2 e2 w2 :
  reaches m w n m1 p1 e1 w1 →
  try_body m1 p1 e1 w1 = Next m2 p2 e2 w2 →
  reaches m w (S n) m2 p2 e2 w2.
Proof.
  unfold reaches. generalize PNone (PDict []). revert m w.
  induction n as [|n IH]; intros m w p e Hr Hb; simpl in *.
  - inversion Hr; subst. by rewrite Hb.
  - destruct (try_body m p e w); try discriminate. by eapply IH.
Qed.

(** What an iteration that goes on to the next one has done. *)
Lemma try_body_Next_inv m p e w m' p' e' w' :
  try_body m p e w = Next m' p' e' w' →
  ∃ nm action_func next_state_func d1 w1 info d2 st,
    state m = Some (BaseState nm action_func next_state_func) ∧
    invoke action_func e (data m) w = (Ret p', d1, w1) ∧
    call_transition next_state_func p' d1 w1 = (Ret info, d2, w') ∧
    m' = with_state (with_data m d2) (Some st) ∧
    (st = ExitState ∨ ∃ key, states m !! key = Some st) ∧
    e' = match info with
         | PTuple (_ :: bag :: _) => bag
         | _ => PDict []
         end.
Proof.
  unfold try_body. intros H.
  destruct (state m) as [[|nm a t]|] eqn:Hst; try discriminate.
  destruct (invoke a e (data m) w) as [[[r| |] d1] w1] eqn:Hi; try discriminate.
  destruct (call_transition t r d1 w1) as [[[info| |] d2] w2] eqn:Ht;
    try discriminate.
  destruct info as [| | | |[|key rest]| | |]; try discriminate.
  - inversion H; subst. eexists _, _, _, _, _, _, _, _.
    repeat split; try done.
    simpl. destruct (states m !! s) eqn:Hs; simpl; eauto.
  - destruct (states_get (states (with_data m d2)) key) as [err|st] eqn:Hg;
      [discriminate|].
    inversion H; subst. eexists _, _, _, _, _, _, _, _.
    repeat split; try done;
      first [by apply states_get_from_registry in Hg | by destruct rest].
Qed.

Lemma try_body_to_Exit m p extra w nm action_func next_state_func
    result d1 w1 d2 w2 :
  state m = Some (BaseState nm action_func next_state_func) →
  invoke action_func extra (data m) w = (Ret result, d1, w1) →
  call_transition next_state_func result d1 w1 = (Ret (PStr "Exit"), d2, w2) →
  exit_reserved (states m) →
  try_body m p extra w =
    Next (with_state (with_data m d2) (Some ExitState)) result (PDict []) w2.
Proof.
  intros Hst Hact Htr Hres. unfold try_body. rewrite Hst, Hact, Htr. simpl.
  destruct (states m !! "Exit") as [st|] eqn:Hex; [|done].
  by rewrite (Hres st Hex).
Qed.

(** X1: when [process] reaches a state whose action returns [result] and
    whose transition returns the name Exit, [process] returns [result], the
    result of the last action run, and adds nothing to the world the
    transition left. *)
Theorem process_returns_result_of_last_action
    m w n m1 previous_result extra_args w1 nm action_func next_state_func
    result d1 w2 d2 w3 fuel :
  reaches m w n m1 previous_result extra_args w1 →
  state m1 = Some (BaseState nm action_func next_state_func) →
  invoke action_func extra_args (data m1) w1 = (Ret result, d1, w2) →
  call_transition next_state_func result d1 w2 = (Ret (PStr "Exit"), d2, w3) →
  exit_reserved (states m1) →
  S n < fuel →
  process fuel m w =
    (Ret result, with_state (with_data m1 d2) (Some ExitState), w3).
Proof.
  intros Hr Hst Hact Htr Hres Hlt.
  eapply process_reaches_exit; [|by left|exact Hlt].
  eapply reaches_S; [exact Hr|].
  by eapply try_body_to_Exit.
Qed.

(** The theorem at the run A, B, Exit with results 1 and 2: [process]
    returns 2. *)
Lemma process_returns_result_of_last_action_witness :
  ∃ m w m1,
    build ex_A_then_B "A" = (Ret m, w) ∧
    reaches m w 1 m1 (PInt 1) (PDict []) w ∧
    state_name m1 = "B" ∧
    exit_reserved (states m1) ∧
    process 10 m w =
      (Ret (PInt 2), with_state (with_data m1 (data m1)) (Some ExitState), w).
Proof.
  eexists _, _, _.
  split; [vm_compute; reflexivity|].
  split; [vm_compute; reflexivity|].
  split; [reflexivity|].
  split; [intros st H; vm_compute in H; by inversion H|].
  eapply (process_returns_result_of_last_action _ _ 1 _ (PInt 1) (PDict []) _
            "B" (returning (PInt 2)) (always (PStr "Exit")) (PInt 2)).
  - vm_compute; reflexivity.
  - reflexivity.
  - reflexivity.
  - reflexivity.
  - intros st H; vm_compute in H; by inversion H.
  - lia.
Defined.

(** X2: a machine built with Exit as its initial state, over a registry
    that has the Exit entry, returns [None] from [process] at once: no
    action runs, not even the one the registry gives for Exit, and the
    machine and the world are left as built. *)
Theorem process_started_in_Exit env context defs path w m w2 fuel :
  StateMachine__init__ env context defs "Exit" path w = (Ret m, w2) →
  0 < fuel →
  state m = Some ExitState ∧ process fuel m w2 = (Ret PNone, m, w2).
Proof.
  intros Hinit Hf.
  destruct (StateMachine__init___returned _ _ _ _ _ _ _ _ Hinit)
    as (cfg & cl & w1 & _ & Hsts & Hst & [st Hsome] & _).
  assert (Hex : state m = Some ExitState).
  { rewrite Hsome. f_equal.
    apply (_create_states_exit_reserved defs (states m) Hsts).
    by rewrite <- Hst. }
  split; [exact Hex|].
  apply (process_reaches_exit m w2 0 m PNone (PDict []) w2);
    [reflexivity|by left|lia].
Qed.

Lemma process_started_in_Exit_witness :
  ∃ m w,
    build ex_A_then_B "Exit" = (Ret m, w) ∧
    0 < 5 ∧
    state m = Some ExitState ∧ process 5 m w = (Ret PNone, m, w).
Proof.
  eexists _, _.
  split; [vm_compute; reflexivity|].
  split; [lia|].
  eapply (process_started_in_Exit ex_env ex_context ex_A_then_B "" ex_world).
  - vm_compute; reflexivity.
  - lia.
Defined.

Lemma _create_states_loop_with_exit_config c defs acc :
  _create_states_loop (with_exit_config c defs) acc = _create_states_loop defs acc.
Proof.
  revert acc. induction defs as [|[nm cfg] defs IH]; intros acc; [done|].
  unfold with_exit_config in *. rewrite fmap_cons. simpl.
  destruct (String.eqb nm "Exit") eqn:Hnm; simpl.
  - by rewrite Hnm, IH.
  - rewrite Hnm. destruct (cfg_action cfg); [|done]. by rewrite IH.
Qed.

(** X3: the configuration stored under the name Exit is never read: with
    any other action and transition in its place, [_create_states] builds
    the same registry, and the constructor returns the same machine. *)
Theorem _create_states_ignores_exit_config c env context defs initial path w :
  _create_states (with_exit_config c defs) = _create_states defs ∧
  StateMachine__init__ env context (with_exit_config c defs) initial path w =
    StateMachine__init__ env context defs initial path w.
Proof.
  assert (H : _create_states (with_exit_config c defs) = _create_states defs)
    by apply _create_states_loop_with_exit_config.
  split; [exact H|].
  unfold StateMachine__init__. by rewrite H.
Qed.

Lemma try_body_keeps_registry m p e w :
  match try_body m p e w with
  | Next m' _ _ _ =>
      states m' = states m ∧
      ∃ st, state m' = Some st ∧
            (st = ExitState ∨ ∃ key, states m !! key = Some st)
  | Returned _ m' _ | Raised _ m' _ | Diverged m' _ =>
      states m' = states m ∧ state m' = state m
  end.
Proof.
  destruct (try_body m p e w) as [m' p' e' w'|v m' w'|exn m' w'|m' w'] eqn:Hb.
  - apply try_body_Next_inv in Hb
      as (nm & a & t & d1 & w1 & info & d2 & st & _ & _ & _ & -> & Hst & _).
    split; [done|]. by exists st.
  - unfold try_body in Hb. by repeat case_match; inversion Hb; subst.
  - unfold try_body in Hb. by repeat case_match; inversion Hb; subst.
  - unfold try_body in Hb. by repeat case_match; inversion Hb; subst.
Qed.

Lemma process_loop_keeps_registry fuel :
  ∀ m p e w o m' w',
    in_registry m →
    process_loop fuel m p e w = (o, m', w') →
    states m' = states m ∧ in_registry m'.
Proof.
  induction fuel as [|fuel IH]; intros m p e w o m' w' Hin H; simpl in H.
  - by inversion H; subst.
  - pose proof (try_body_keeps_registry m p e w) as Hb.
    assert (Hsame : ∀ m1, states m1 = states m → state m1 = state m →
                      in_registry m1).
    { intros m1 Hs Hst. unfold in_registry. by rewrite Hs, Hst. }
    destruct (try_body m p e w) as [m1 p1 e1 w1|v m1 w1|exn m1 w1|m1 w1].
    + destruct Hb as (Hs & st & Hst & Hreg).
      assert (Hin1 : in_registry m1).
      { exists st. split; [done|]. by rewrite Hs. }
      destruct (IH _ _ _ _ _ _ _ Hin1 H) as [Hs' Hin'].
      split; [congruence|done].
    + destruct Hb as [Hs Hst]. inversion H; subst. auto.
    + destruct Hb as [Hs Hst].
      destruct (except_clauses m1 exn w1) as [[exn'|] w2]; inversion H; subst; auto.
    + destruct Hb as [Hs Hst]. inversion H; subst. auto.
Qed.

(** X4: however [process] ends, it leaves the registry of a machine built
    by the constructor as it was, and the machine stands in the exit state
    or in one of the registered states. *)
Theorem process_keeps_registry env context defs initial path w m w2 fuel o m' w' :
  StateMachine__init__ env context defs initial path w = (Ret m, w2) →
  process fuel m w2 = (o, m', w') →
  states m' = states m ∧
  ∃ st, state m' = Some st ∧ (st = ExitState ∨ ∃ key, states m !! key = Some st).
Proof.
  intros Hinit Hp.
  destruct (StateMachine__init___returned _ _ _ _ _ _ _ _ Hinit)
    as (cfg & cl & w1 & _ & _ & Hst & [st Hsome] & _).
  assert (Hin : in_registry m).
  { exists st. split; [done|]. right. exists initial. by rewrite <- Hst. }
  destruct (process_loop_keeps_registry fuel m PNone (PDict []) w2 o m' w' Hin Hp)
    as [Hs (st' & Hst' & Hreg)].
  split; [done|]. exists st'. split; [done|]. by rewrite <- Hs.
Qed.

Lemma process_keeps_registry_witness :
  ∃ m w o m' w',
    build ex_A_then_failing_B "A" = (Ret m, w) ∧
    process 10 m w = (o, m', w') ∧
    states m' = states m ∧
    ∃ st, state m' = Some st ∧ (st = ExitState ∨ ∃ key, states m !! key = Some st).
Proof.
  eexists _, _, _, _, _.
  split; [vm_compute; reflexivity|].
  split; [vm_compute; reflexivity|].
  eapply (process_keeps_registry ex_env ex_context ex_A_then_failing_B "A" ""
            ex_world _ _ 10).
  - vm_compute; reflexivity.
  - vm_compute; reflexivity.
Defined.

(** X5: when [process] reaches a state whose action, or else whose
    transition, raises [e], the exception leaves [process] exactly when it
    is the usage-limit error or lies outside [Exception]. The usage limit
    is logged once; an exception outside [Exception] is not logged at all;
    every other exception is logged twice and [process] returns [None]. *)
Theorem process_reraises_exactly
    m w n m1 previous_result extra_args w1 nm action_func next_state_func
    e d w2 fuel :
  reaches m w n m1 previous_result extra_args w1 →
  state m1 = Some (BaseState nm action_func next_state_func) →
  invoke action_func extra_args (data m1) w1 = (Raise e, d, w2) ∨
  (∃ result d1 w1',
     invoke action_func extra_args (data m1) w1 = (Ret result, d1, w1') ∧
     call_transition next_state_func result d1 w1' = (Raise e, d, w2)) →
  n < fuel →
  process fuel m w =
    if is_usage_limit e then
      (Raise e, with_data m1 d, logging ERROR (UsageLimitInState nm) w2)
    else if isinstance_Exception e then
      (Ret PNone, with_data m1 d,
       logging ERROR (TracebackOf e)
         (logging ERROR
            ((if isinstance_RuntimeError e then RuntimeErrorInState
              else ErrorInState) nm e) w2))
    else (Raise e, with_data m1 d, w2).
Proof.
  intros Hr Hst Hraise Hlt.
  rewrite (process_from_reached _ _ _ _ _ _ _ _ Hr Hlt).
  destruct (fuel - n) as [|k] eqn:Hk; [lia|].
  rewrite (process_loop_raised _ _ _ _ _ _ _ _
             (state_raises_try_body _ previous_result _ _ _ _ _ _ _ _ Hst Hraise)).
  assert (Hnm : state_name (with_data m1 d) = nm)
    by (unfold state_name; simpl; by rewrite Hst).
  destruct (is_usage_limit e) eqn:Hul.
  - by rewrite except_clauses_usage_limit, Hnm.
  - destruct (isinstance_Exception e) eqn:Hex.
    + by rewrite except_clauses_ordinary, Hnm.
    + unfold except_clauses.
      assert (Hrt : isinstance_RuntimeError e = false).
      { unfold isinstance_RuntimeError, isinstance_Exception in *.
        by destruct (exn_cls e). }
      by rewrite Hrt, Hex.
Qed.

(** The theorem at the run in which B is interrupted from the keyboard:
    the interrupt leaves [process] and nothing is logged. *)
Lemma process_reraises_exactly_witness :
  ∃ m w m1,
    build ex_A_then_interrupted_B "A" = (Ret m, w) ∧
    reaches m w 1 m1 (PInt 1) (PDict []) w ∧
    state_name m1 = "B" ∧
    is_usage_limit keyboard_interrupt = false ∧
    isinstance_Exception keyboard_interrupt = false ∧
    process 10 m w = (Raise keyboard_interrupt, with_data m1 (data m1), w) ∧
    log w = [].
Proof.
  eexists _, _, _.
  split; [vm_compute; reflexivity|].
  split; [vm_compute; reflexivity|].
  split; [reflexivity|].
  split; [reflexivity|].
  split; [reflexivity|].
  split; [|reflexivity].
  eapply (process_reraises_exactly _ _ 1 _ (PInt 1) (PDict []) _ "B"
            (raising_action keyboard_interrupt) (always (PStr "Exit"))
            keyboard_interrupt).
  - vm_compute; reflexivity.
  - reflexivity.
  - left; reflexivity.
  - lia.
Defined.

(** X6: a tuple whose first item is not a string never selects a
    registered state. When the item is hashable the run ends as on Exit and
    [process] returns the action's result; when it is not, the lookup fails
    with TypeError, which is logged, and [process] returns [None]. *)
Theorem process_tuple_without_name
    m w n m1 previous_result extra_args w1 nm action_func next_state_func
    result d1 w2 key rest d2 w3 fuel :
  reaches m w n m1 previous_result extra_args w1 →
  state m1 = Some (BaseState nm action_func next_state_func) →
  invoke action_func extra_args (data m1) w1 = (Ret result, d1, w2) →
  call_transition next_state_func result d1 w2 = (Ret (PTuple (key :: rest)), d2, w3) →
  (∀ s, key ≠ PStr s) →
  S n < fuel →
  process fuel m w =
    if hashable key then
      (Ret result, with_state (with_data m1 d2) (Some ExitState), w3)
    else
      (Ret PNone, with_data m1 d2,
       logging ERROR (TracebackOf (type_error "unhashable type"))
         (logging ERROR (ErrorInState nm (type_error "unhashable type")) w3)).
Proof.
  intros Hr Hst Hact Htr Hkey Hlt.
  assert (Hb : try_body m1 previous_result extra_args w1 =
               if hashable key then
                 Next (with_state (with_data m1 d2) (Some ExitState)) result
                   (match rest with [] => PDict [] | a :: _ => a end) w3
               else Raised (type_error "unhashable type") (with_data m1 d2) w3).
  { unfold try_body. rewrite Hst, Hact, Htr. unfold states_get. simpl.
    destruct (hashable key); [|done].
    destruct key; try done. by destruct (Hkey s). }
  destruct (hashable key).
  - eapply process_reaches_exit; [|by left|exact Hlt].
    eapply reaches_S; [exact Hr|exact Hb].
  - rewrite (process_from_reached _ _ _ _ _ _ _ _ Hr) by lia.
    destruct (fuel - n) as [|k] eqn:Hk; [lia|].
    rewrite (process_loop_raised _ _ _ _ _ _ _ _ Hb).
    rewrite except_clauses_ordinary by done.
    unfold state_name. simpl. by rewrite Hst.
Qed.

Lemma process_tuple_without_name_witness :
  ∃ m w,
    build ex_tuple_with_number "A" = (Ret m, w) ∧
    reaches m w 0 m PNone (PDict []) w ∧
    (∀ s, PInt 7 ≠ PStr s) ∧
    hashable (PInt 7) = true ∧
    process 10 m w =
      (Ret (PInt 1), with_state (with_data m (data m)) (Some ExitState), w).
Proof.
  eexists _, _.
  split; [vm_compute; reflexivity|].
  split; [reflexivity|].
  split; [intros s; discriminate|].
  split; [reflexivity|].
  eapply (process_tuple_without_name _ _ 0 _ PNone (PDict []) _ "A" _ _
            (PInt 1) _ _ (PInt 7) [PDict []]).
  - reflexivity.
  - vm_compute; reflexivity.
  - vm_compute; reflexivity.
  - vm_compute; reflexivity.
  - intros s; discriminate.
  - lia.
Defined.

Lemma reaches_S_inv m w n m2 p2 e2 w2 :
  reaches m w (S n) m2 p2 e2 w2 →
  ∃ m1 p1 e1 w1,
    reaches m w n m1 p1 e1 w1 ∧ try_body m1 p1 e1 w1 = Next m2 p2 e2 w2.
Proof.
  unfold reaches. generalize PNone (PDict []). revert m w.
  induction n as [|n IH]; intros m w p e H.
  - simpl in H. destruct (try_body m p e w) as [m1 p1 e1 w1| | |] eqn:Hb;
      try discriminate.
    inversion H; subst. by exists m, p, e, w.
  - change (run_to (S (S n)) m p e w)
      with (match try_body m p e w with
            | Next m p e w => run_to (S n) m p e w
            | _ => None
            end) in H.
    destruct (try_body m p e w) as [m1 p1 e1 w1| | |] eqn:Hb; try discriminate.
    destruct (IH _ _ _ _ H) as (m1' & p1' & e1' & w1' & Hr & Hn).
    exists m1', p1', e1', w1'. split; [|done].
    simpl. by rewrite Hb.
Qed.

(** X7: at every iteration after the first, the loop variables come from
    the iteration before and from nothing earlier: the last result is what
    the action just run returned, and the pending arguments are the second
    item of the tuple its transition returned, or empty when the transition
    returned a string or a tuple of one item. *)
Theorem reaches_carries_one_step m w n m2 previous_result extra_args w2 :
  reaches m w (S n) m2 previous_result extra_args w2 →
  ∃ m1 p1 e1 w1 nm action_func next_state_func d1 w1' info d2,
    reaches m w n m1 p1 e1 w1 ∧
    state m1 = Some (BaseState nm action_func next_state_func) ∧
    invoke action_func e1 (data m1) w1 = (Ret previous_result, d1, w1') ∧
    call_transition next_state_func previous_result d1 w1' = (Ret info, d2, w2) ∧
    extra_args = match info with
                 | PTuple (_ :: bag :: _) => bag
                 | _ => PDict []
                 end.
Proof.
  intros H.
  destruct (reaches_S_inv _ _ _ _ _ _ _ H) as (m1 & p1 & e1 & w1 & Hr & Hb).
  apply try_body_Next_inv in Hb
    as (nm & a & t & d1 & w1' & info & d2 & st & Hst & Hact & Htr & _ & _ & He).
  by exists m1, p1, e1, w1, nm, a, t, d1, w1', info, d2.
Qed.

Lemma reaches_carries_one_step_witness :
  ∃ m w m2,
    build (ex_bag_for (returning (PInt 2))) "S1" = (Ret m, w) ∧
    reaches m w 1 m2 (PInt 1) (PDict [("k", PInt 1)]) w ∧
    ∃ m3, reaches m w 2 m3 (PInt 2) (PDict []) w ∧
    ∃ m1 p1 e1 w1 nm action_func next_state_func d1 w1' info d2,
      reaches m w 1 m1 p1 e1 w1 ∧
      state m1 = Some (BaseState nm action_func next_state_func) ∧
      invoke action_func e1 (data m1) w1 = (Ret (PInt 2), d1, w1') ∧
      call_transition next_state_func (PInt 2) d1 w1' = (Ret info, d2, w) ∧
      PDict [] = match info with
                 | PTuple (_ :: bag :: _) => bag
                 | _ => PDict []
                 end.
Proof.
  eexists _, _, _.
  split; [vm_compute; reflexivity|].
  split; [vm_compute; reflexivity|].
  eexists.
  split; [vm_compute; reflexivity|].
  eapply reaches_carries_one_step.
  vm_compute; reflexivity.
Defined.

(** ** The registry and the constructor *)

Lemma _create_states_loop_missing_action defs acc nm cfg :
  (nm, cfg) ∈ defs → nm ≠ "Exit" → cfg_action cfg = None →
  _create_states_loop defs acc =
    Raise {| exn_cls := KeyError; exn_str := "'action'" |}.
Proof.
  revert acc. induction defs as [|[nm' cfg'] defs IH]; intros acc Hin Hne Hnone.
  - by apply elem_of_nil in Hin.
  - simpl. apply elem_of_cons in Hin as [Heq|Hin].
    + inversion Heq; subst.
      apply String.eqb_neq in Hne. by rewrite Hne, Hnone.
    + destruct (String.eqb nm' "Exit"); [by apply IH|].
      destruct (cfg_action cfg'); [by apply IH|done].
Qed.

(** X8: when an entry other than Exit has no action key, building the
    registry raises KeyError, and so does the constructor once the
    environment is loaded, whatever the initial state is. *)
Theorem StateMachine__init___missing_action
    env context defs initial path w c cl w1 nm cfg :
  load_environment env path w = (Ret (c, cl), w1) →
  (nm, cfg) ∈ defs → nm ≠ "Exit" → cfg_action cfg = None →
  _create_states defs = Raise {| exn_cls := KeyError; exn_str := "'action'" |} ∧
  (StateMachine__init__ env context defs initial path w).1 =
    Raise {| exn_cls := KeyError; exn_str := "'action'" |}.
Proof.
  intros Henv Hin Hne Hnone.
  pose proof (_create_states_loop_missing_action defs ∅ nm cfg Hin Hne Hnone) as H.
  split; [exact H|].
  unfold StateMachine__init__, _create_states. rewrite Henv, H.
  by destruct (ctx_messages context); simpl.
Qed.

Lemma StateMachine__init___missing_action_witness :
  load_environment ex_env "" ex_world =
    (Ret ({| config_path := ""; top_p := PFloat "1.0" |}, []), ex_world) ∧
  ("B", {| cfg_action := None; cfg_next_state_func := always (PStr "Exit") |})
    ∈ ex_missing_action ∧
  (build ex_missing_action "A").1 =
    Raise {| exn_cls := KeyError; exn_str := "'action'" |}.
Proof.
  split; [reflexivity|].
  split; [right; left|].
  eapply (StateMachine__init___missing_action ex_env ex_context ex_missing_action
            "A" "" ex_world _ _ _ "B").
  - reflexivity.
  - right; left.
  - discriminate.
  - reflexivity.
Defined.

Lemma _create_states_loop_not_in defs acc sts nm :
  _create_states_loop defs acc = Ret sts →
  nm ∉ defs.*1 → sts !! nm = acc !! nm.
Proof.
  revert acc. induction defs as [|[nm' cfg] defs IH]; intros acc H Hnin;
    simpl in *.
  - by inversion H.
  - apply not_elem_of_cons in Hnin as [Hne Hnin].
    destruct (String.eqb nm' "Exit").
    + rewrite (IH _ H Hnin). by rewrite lookup_insert_ne.
    + destruct (cfg_action cfg); [|discriminate].
      rewrite (IH _ H Hnin). by rewrite lookup_insert_ne.
Qed.

Lemma _create_states_loop_lookup defs acc sts nm cfg :
  NoDup defs.*1 →
  _create_states_loop defs acc = Ret sts →
  (nm, cfg) ∈ defs →
  sts !! nm =
    Some (if String.eqb nm "Exit" then ExitState
          else match cfg_action cfg with
               | Some a => BaseState nm a (cfg_next_state_func cfg)
               | None => ExitState
               end).
Proof.
  revert acc. induction defs as [|[nm' cfg'] defs IH]; intros acc Hnd H Hin.
  - by apply elem_of_nil in Hin.
  - rewrite fmap_cons in Hnd. apply NoDup_cons in Hnd as [Hnin Hnd].
    simpl in H, Hnin. apply elem_of_cons in Hin as [Heq|Hin].
    + inversion Heq; subst.
      destruct (String.eqb nm' "Exit").
      * rewrite (_create_states_loop_not_in _ _ _ _ H Hnin).
        by rewrite lookup_insert_eq.
      * destruct (cfg_action cfg') as [a|]; [|discriminate].
        rewrite (_create_states_loop_not_in _ _ _ _ H Hnin).
        by rewrite lookup_insert_eq.
    + destruct (String.eqb nm' "Exit"); [by eapply IH|].
      destruct (cfg_action cfg'); [by eapply IH|discriminate].
Qed.

(** X9: over a registry whose names are distinct, as the keys of a dict
    are, a successful [_create_states] maps every name other than Exit to a
    state that carries that name, the entry's action and the entry's
    transition, and maps Exit to the exit state; names that have no entry
    are not in the registry. *)
Theorem _create_states_lookup defs sts :
  NoDup defs.*1 →
  _create_states defs = Ret sts →
  (∀ nm cfg, (nm, cfg) ∈ defs → nm ≠ "Exit" →
     ∃ a, cfg_action cfg = Some a ∧
          sts !! nm = Some (BaseState nm a (cfg_next_state_func cfg))) ∧
  (∀ cfg, ("Exit", cfg) ∈ defs → sts !! "Exit" = Some ExitState) ∧
  (∀ nm, nm ∉ defs.*1 → sts !! nm = None).
Proof.
  intros Hnd H. split; [|split].
  - intros nm cfg Hin Hne.
    pose proof (_create_states_loop_lookup _ _ _ _ _ Hnd H Hin) as Hl.
    apply String.eqb_neq in Hne. rewrite Hne in Hl.
    destruct (cfg_action cfg) as [a|] eqn:Ha; [by exists a|].
    apply String.eqb_neq in Hne. unfold _create_states in H.
    by rewrite (_create_states_loop_missing_action _ _ _ _ Hin Hne Ha) in H.
  - intros cfg Hin.
    by rewrite (_create_states_loop_lookup _ _ _ _ _ Hnd H Hin).
  - intros nm Hnin. by apply (_create_states_dom defs sts nm H).
Qed.

Lemma _create_states_lookup_witness :
  NoDup ex_A_then_B.*1 ∧
  ∃ sts, _create_states ex_A_then_B = Ret sts ∧
    sts !! "B" = Some (BaseState "B" (returning (PInt 2)) (always (PStr "Exit"))) ∧
    sts !! "Exit" = Some ExitState ∧
    sts !! "C" = None.
Proof.
  assert (Hnd : NoDup ex_A_then_B.*1).
  { apply NoDup_ListNoDup. vm_compute.
    repeat constructor; simpl; intuition discriminate. }
  split; [exact Hnd|].
  eexists. split; [vm_compute; reflexivity|].
  edestruct (_create_states_lookup ex_A_then_B _ Hnd ltac:(vm_compute; reflexivity))
    as (H1 & H2 & H3).
  split; [|split].
  - destruct (H1 "B" (entry (returning (PInt 2)) (always (PStr "Exit")))
                ltac:(right; left) ltac:(discriminate)) as (a & Ha & Hl).
    inversion Ha; subst. exact Hl.
  - apply (H2 (snd exit_entry)). right; right; left.
  - apply H3. vm_compute. intros Hin.
    repeat (apply elem_of_cons in Hin as [Hin|Hin]; [discriminate|]).
    by apply elem_of_nil in Hin.
Defined.

(** ** The retrying invoker *)

Section RetryFacts.

Variable client : openai.Client.
Variable max_retries : Z.

Lemma standard_loop_calls_bound params fuel :
  ∀ retries w,
    let r := standard_loop fuel client params max_retries retries w in
    calls w ≤ calls r.2 ∧
    calls r.2 ≤ calls w + Z.to_nat (max_retries - retries) ∧
    (r.1 = Ret None → calls r.2 = calls w + Z.to_nat (max_retries - retries)) ∧
    (∀ resp, r.1 = Ret (Some resp) → has_content resp).
Proof.
  induction fuel as [|fuel IH]; intros retries w; simpl.
  - repeat split; try lia; discriminate.
  - destruct (retries <? max_retries)%Z eqn:Hlt.
    + apply Z.ltb_lt in Hlt.
      destruct (openai.parse client (calls w) params) as [resp|e|]; simpl;
        try (repeat split; try lia; discriminate).
      destruct (openai.choices resp) as [|c cs] eqn:Hc; simpl;
        [repeat split; try lia; discriminate|].
      destruct (str_falsy (openai.content (openai.message c))) eqn:Hf; simpl.
      * match goal with
        | |- context [standard_loop fuel _ _ _ ?r ?w0] =>
            destruct (IH r w0) as (H1 & H2 & H3 & H4)
        end.
        simpl in H1, H2, H3.
        replace (Z.to_nat (max_retries - retries))
          with (S (Z.to_nat (max_retries - (retries + 1)))) by lia.
        repeat split; try lia; [intros Hn; specialize (H3 Hn); lia|done].
      * repeat split; try lia; try discriminate.
        intros resp' [= <-]. exists c, cs. by rewrite Hc.
    + apply Z.ltb_ge in Hlt. simpl.
      replace (Z.to_nat (max_retries - retries)) with 0 by lia.
      repeat split; try lia; discriminate.
Qed.

Lemma openrouter_loop_calls_bound params debug fuel :
  ∀ retries w,
    let r := openrouter_loop fuel client params debug max_retries retries w in
    calls w ≤ calls r.2 ∧
    calls r.2 ≤ calls w + Z.to_nat (max_retries - retries) ∧
    (r.1 = Ret None → calls r.2 = calls w + Z.to_nat (max_retries - retries)) ∧
    (∀ resp, r.1 = Ret (Some resp) → has_content resp).
Proof.
  induction fuel as [|fuel IH]; intros retries w; simpl.
  - repeat split; try lia; discriminate.
  - destruct (retries <? max_retries)%Z eqn:Hlt.
    + apply Z.ltb_lt in Hlt.
      set (wd := if debug then logging INFO (Text "OpenRouter request params") w
                 else w).
      assert (Hcd : calls wd = calls w) by (subst wd; by destruct debug).
      rewrite Hcd.
      assert (Hstep : ∀ t,
        let r := openrouter_loop fuel client params debug max_retries
                   (retries + 1) (logging ERROR t (count_call wd)) in
        calls w ≤ calls r.2 ∧
        calls r.2 ≤ calls w + Z.to_nat (max_retries - retries) ∧
        (r.1 = Ret None → calls r.2 = calls w + Z.to_nat (max_retries - retries)) ∧
        (∀ resp, r.1 = Ret (Some resp) → has_content resp)).
      { intros t.
        destruct (IH (retries + 1)%Z (logging ERROR t (count_call wd)))
          as (H1 & H2 & H3 & H4).
        simpl in H1, H2, H3. rewrite Hcd in H1, H2, H3.
        replace (Z.to_nat (max_retries - retries))
          with (S (Z.to_nat (max_retries - (retries + 1)))) by lia.
        repeat split; try lia; [intros Hn; specialize (H3 Hn); lia|done]. }
      assert (Hstep' : ∀ t,
        let r := openrouter_loop fuel client params debug max_retries
                   (retries + 1) (logging INFO t (count_call wd)) in
        calls w ≤ calls r.2 ∧
        calls r.2 ≤ calls w + Z.to_nat (max_retries - retries) ∧
        (r.1 = Ret None → calls r.2 = calls w + Z.to_nat (max_retries - retries)) ∧
        (∀ resp, r.1 = Ret (Some resp) → has_content resp)).
      { intros t.
        destruct (IH (retries + 1)%Z (logging INFO t (count_call wd)))
          as (H1 & H2 & H3 & H4).
        simpl in H1, H2, H3. rewrite Hcd in H1, H2, H3.
        replace (Z.to_nat (max_retries - retries))
          with (S (Z.to_nat (max_retries - (retries + 1)))) by lia.
        repeat split; try lia; [intros Hn; specialize (H3 Hn); lia|done]. }
      destruct (openai.parse client (calls w) params) as [resp|e|]; simpl.
      * destruct (openai.choices resp) as [|c cs] eqn:Hc; [apply Hstep'|].
        destruct (str_falsy (openai.content (openai.message c))) eqn:Hf;
          [apply Hstep'|].
        simpl. rewrite Hcd. repeat split; try lia; try discriminate.
        intros resp' [= <-]. exists c, cs. by rewrite Hc.
      * destruct (isinstance_Exception e); [apply Hstep|].
        simpl. rewrite Hcd. repeat split; try lia; discriminate.
      * rewrite Hcd. repeat split; try lia; discriminate.
    + apply Z.ltb_ge in Hlt. simpl.
      replace (Z.to_nat (max_retries - retries)) with 0 by lia.
      repeat split; try lia; discriminate.
Qed.

End RetryFacts.

(** X10: whatever the provider answers, [reliable_parse] issues at most
    [max_retries] calls (3 when the argument is left out, none when it is
    not positive), and it leaves every message list as it was. *)
Theorem reliable_parse_call_bound client request_params max_retries debug
    model_info w :
  let r := reliable_parse client request_params max_retries debug model_info w in
  calls w ≤ calls r.2 ∧
  calls r.2 ≤ calls w + Z.to_nat (default 3%Z max_retries) ∧
  heap r.2 = heap w.
Proof.
  intros r. split; [|split]; [| |apply reliable_parse_heap].
  - subst r. unfold reliable_parse.
    destruct (is_openrouter model_info).
    + destruct (truthy _); [|simpl; lia].
      match goal with
      | |- context [openrouter_loop ?f _ ?p ?d ?m ?r0 ?w0] =>
          destruct (openrouter_loop_calls_bound client m p d f r0 w0) as (H & _);
          assert (Hw : calls w0 = calls w) by (by repeat case_match)
      end.
      simpl in *. lia.
    + by destruct (standard_loop_calls_bound client (default 3%Z max_retries)
                     request_params (S (Z.to_nat (default 3%Z max_retries))) 0%Z w)
        as (H & _).
  - subst r. unfold reliable_parse.
    destruct (is_openrouter model_info).
    + destruct (truthy _); [|simpl; lia].
      match goal with
      | |- context [openrouter_loop ?f _ ?p ?d ?m ?r0 ?w0] =>
          destruct (openrouter_loop_calls_bound client m p d f r0 w0)
            as (_ & H & _);
          assert (Hw : calls w0 = calls w) by (by repeat case_match)
      end.
      simpl in *. rewrite Z.sub_0_r in H. lia.
    + destruct (standard_loop_calls_bound client (default 3%Z max_retries)
                  request_params (S (Z.to_nat (default 3%Z max_retries))) 0%Z w)
        as (_ & H & _).
      simpl in *. rewrite Z.sub_0_r in H. lia.
Qed.

(** X11: what a returned value of [reliable_parse] tells: a response is
    returned only if its first choice has content that is neither [None]
    nor empty, and [None] is returned only after all [max_retries] calls
    have been issued. *)
Theorem reliable_parse_returned client request_params max_retries debug
    model_info w :
  let r := reliable_parse client request_params max_retries debug model_info w in
  (∀ resp, r.1 = Ret (Some resp) → has_content resp) ∧
  (r.1 = Ret None →
   calls r.2 = calls w + Z.to_nat (default 3%Z max_retries)).
Proof.
  intros r. subst r. unfold reliable_parse.
  destruct (is_openrouter model_info).
  - destruct (truthy _); [|split; [intros resp|]; discriminate].
    match goal with
    | |- context [openrouter_loop ?f _ ?p ?d ?m ?r0 ?w0] =>
        destruct (openrouter_loop_calls_bound client m p d f r0 w0)
          as (_ & _ & H3 & H4);
        assert (Hw : calls w0 = calls w) by (by repeat case_match)
    end.
    split; [exact H4|]. intros Hn. specialize (H3 Hn).
    simpl in *. rewrite Z.sub_0_r in H3. lia.
  - destruct (standard_loop_calls_bound client (default 3%Z max_retries)
                request_params (S (Z.to_nat (default 3%Z max_retries))) 0%Z w)
      as (_ & _ & H3 & H4).
    split; [exact H4|]. intros Hn. specialize (H3 Hn).
    simpl in *. rewrite Z.sub_0_r in H3. lia.
Qed.

Lemma reliable_parse_returned_witness :
  let r := reliable_parse ex_slow_client [] None false None ex_world in
  r.1 = Ret (Some ex_text_response) ∧ has_content ex_text_response ∧
  let r' := reliable_parse ex_empty_client [] (Some 2%Z) false None ex_world in
  r'.1 = Ret None ∧ calls r'.2 = calls ex_world + 2.
Proof.
  destruct (reliable_parse_returned ex_slow_client [] None false None ex_world)
    as [Hsome _].
  destruct (reliable_parse_returned ex_empty_client [] (Some 2%Z) false None
              ex_world) as [_ Hnone].
  split; [vm_compute; reflexivity|].
  split; [apply Hsome; vm_compute; reflexivity|].
  split; [vm_compute; reflexivity|].
  apply Hnone. vm_compute; reflexivity.
Defined.

Section RetrySkips.

Variable client : openai.Client.
Variable max_retries : Z.

(** [k] empty answers move either loop [k] attempts on. *)
Lemma standard_loop_skip params k :
  ∀ fuel retries w,
    all_empty client k w → (retries + Z.of_nat k ≤ max_retries)%Z →
    ∃ wk, standard_loop (k + fuel) client params max_retries retries w =
            standard_loop fuel client params max_retries (retries + Z.of_nat k) wk ∧
          calls wk = calls w + k ∧ heap wk = heap w.
Proof.
  induction k as [|k IH]; intros fuel retries w He Hr.
  - exists w. simpl. rewrite Z.add_0_r, Nat.add_0_r. done.
  - change (S k + fuel) with (S (k + fuel)). simpl.
    replace (retries <? max_retries)%Z with true
      by (symmetry; apply Z.ltb_lt; lia).
    destruct (He 0 params ltac:(lia)) as (r & Hp & Hempty).
    rewrite Nat.add_0_r in Hp. rewrite Hp.
    unfold empty_content in Hempty.
    destruct (openai.choices r) as [|c cs]; [discriminate|].
    rewrite Hempty.
    match goal with
    | |- context [standard_loop (k + fuel) _ _ _ _ ?W] =>
        destruct (IH fuel (retries + 1)%Z W) as (wk & Hl & Hc & Hh);
          [by apply (all_empty_step client _ w) | lia |]
    end.
    exists wk. rewrite Hl. simpl in Hc, Hh.
    replace (retries + 1 + Z.of_nat k)%Z with (retries + Z.of_nat (S k))%Z by lia.
    repeat split; [lia|done].
Qed.

Lemma openrouter_loop_skip params debug k :
  ∀ fuel retries w,
    (∀ i p, i < k → attempt_fails (openai.parse client (calls w + i) p) = true) →
    (retries + Z.of_nat k ≤ max_retries)%Z →
    ∃ wk, openrouter_loop (k + fuel) client params debug max_retries retries w =
            openrouter_loop fuel client params debug max_retries
              (retries + Z.of_nat k) wk ∧
          calls wk = calls w + k ∧ heap wk = heap w.
Proof.
  induction k as [|k IH]; intros fuel retries w He Hr.
  - exists w. simpl. rewrite Z.add_0_r, Nat.add_0_r. done.
  - change (S k + fuel) with (S (k + fuel)). simpl.
    replace (retries <? max_retries)%Z with true
      by (symmetry; apply Z.ltb_lt; lia).
    set (wd := if debug then logging INFO (Text "OpenRouter request params") w
               else w).
    assert (Hwd : calls wd = calls w ∧ heap wd = heap w)
      by (subst wd; destruct debug; done).
    destruct Hwd as [Hcd Hhd]. rewrite Hcd.
    assert (Hnext : ∀ lv t,
      ∃ wk, openrouter_loop (k + fuel) client params debug max_retries
              (retries + 1) (logging lv t (count_call wd)) =
            openrouter_loop fuel client params debug max_retries
              (retries + Z.of_nat (S k)) wk ∧
            calls wk = calls w + S k ∧ heap wk = heap w).
    { intros lv t.
      destruct (IH fuel (retries + 1)%Z (logging lv t (count_call wd)))
        as (wk & Hl & Hc & Hh).
      - intros i p Hi. simpl. rewrite Hcd.
        replace (S (calls w + i)) with (calls w + S i) by lia.
        apply He. lia.
      - lia.
      - exists wk. rewrite Hl. simpl in Hc, Hh. rewrite Hcd in Hc.
        replace (retries + 1 + Z.of_nat k)%Z
          with (retries + Z.of_nat (S k))%Z by lia.
        repeat split; [lia|congruence]. }
    pose proof (He 0 params ltac:(lia)) as Hf.
    rewrite Nat.add_0_r in Hf. unfold attempt_fails in Hf.
    destruct (openai.parse client (calls w) params) as [r|e|]; [| |discriminate].
    + rewrite Hf. apply Hnext.
    + rewrite Hf. apply Hnext.
Qed.

End RetrySkips.

(** The world [reliable_parse] enters the OpenRouter loop with issues its
    first call under the same number as [w]. *)
Lemma reliable_parse_openrouter client request_params max_retries debug d w :
  is_openrouter (Some d) = true →
  truthy (openrouter_api_key d) = true →
  ∃ w0, calls w0 = calls w ∧ heap w0 = heap w ∧
    reliable_parse client request_params max_retries debug (Some d) w =
      openrouter_loop (S (Z.to_nat (default 3%Z max_retries))) client
        (merged_params request_params d) debug (default 3%Z max_retries) 0%Z w0.
Proof.
  intros Hor Hkey. unfold reliable_parse. rewrite Hor. simpl. rewrite Hkey.
  eexists. split; [|split; [|reflexivity]]; by repeat case_match.
Qed.

(** X12: when the first [k] calls meet empty-content responses and the next
    one a response with content, with [k] below [max_retries] and a
    descriptor that passes the check, [reliable_parse] returns that
    response after exactly [k + 1] calls. *)
Theorem reliable_parse_first_success client request_params (N k : nat) debug
    model_info w resp :
  k < N →
  descriptor_ok model_info = true →
  all_empty client k w →
  (∀ params, openai.parse client (calls w + k) params = Ret resp) →
  has_content resp →
  let r := reliable_parse client request_params (Some (Z.of_nat N)) debug
             model_info w in
  r.1 = Ret (Some resp) ∧ calls r.2 = calls w + S k.
Proof.
  intros Hk Hok He Hresp (c & cs & Hc & Hf) r. subst r.
  unfold descriptor_ok in Hok.
  destruct (is_openrouter model_info) eqn:Hor.
  - destruct model_info as [d|]; [|discriminate]. simpl in Hok.
    destruct (reliable_parse_openrouter client request_params
                (Some (Z.of_nat N)) debug d w Hor Hok) as (w0 & Hc0 & _ & ->).
    change (default 3%Z (Some (Z.of_nat N))) with (Z.of_nat N).
    rewrite Nat2Z.id.
    destruct (openrouter_loop_skip client (Z.of_nat N)
                (merged_params request_params d) debug k (S (N - k)) 0%Z w0)
      as (wk & Hl & Hck & _).
    + intros i p Hi. rewrite Hc0.
      destruct (He i p Hi) as (r & -> & Hr). unfold empty_content in Hr.
      simpl. by destruct (openai.choices r).
    + lia.
    + replace (S N) with (k + S (N - k)) by lia. rewrite Hl. simpl.
      replace (0 + Z.of_nat k <? Z.of_nat N)%Z with true
        by (symmetry; apply Z.ltb_lt; lia).
      assert (Hcd : ∀ wd, calls wd = calls wk →
                openai.parse client (calls wd) (merged_params request_params d)
                = Ret resp).
      { intros wd ->. rewrite Hck, Hc0. apply Hresp. }
      destruct debug; rewrite Hcd by done; rewrite Hc, Hf; simpl; split; try done; lia.
  - unfold reliable_parse. rewrite Hor.
    change (default 3%Z (Some (Z.of_nat N))) with (Z.of_nat N).
    cbv zeta. rewrite Nat2Z.id.
    destruct (standard_loop_skip client (Z.of_nat N) request_params k
                (S (N - k)) 0%Z w He ltac:(lia)) as (wk & Hl & Hck & _).
    replace (S N) with (k + S (N - k)) by lia. rewrite Hl. simpl.
    replace (0 + Z.of_nat k <? Z.of_nat N)%Z with true
      by (symmetry; apply Z.ltb_lt; lia).
    rewrite Hck, Hresp, Hc, Hf. simpl. split; [done|lia].
Qed.

Lemma reliable_parse_first_success_witness :
  2 < 3 ∧
  descriptor_ok None = true ∧
  all_empty ex_slow_client 2 ex_world ∧
  (∀ params, openai.parse ex_slow_client (calls ex_world + 2) params =
             Ret ex_text_response) ∧
  has_content ex_text_response ∧
  let r := reliable_parse ex_slow_client [] (Some (Z.of_nat 3)) false None
             ex_world in
  r.1 = Ret (Some ex_text_response) ∧ calls r.2 = calls ex_world + 3.
Proof.
  assert (He : all_empty ex_slow_client 2 ex_world).
  { intros i params Hi. exists ex_empty_response.
    destruct i as [|[|i]]; [done|done|lia]. }
  assert (Hc : has_content ex_text_response) by (eexists _, _; done).
  split; [lia|]. split; [reflexivity|]. split; [exact He|].
  split; [reflexivity|]. split; [exact Hc|].
  apply (reliable_parse_first_success ex_slow_client [] 3 2 false None ex_world
           ex_text_response); [lia|reflexivity|exact He|reflexivity|exact Hc].
Defined.

(** X13: outside the OpenRouter branch an exception of the provider call
    is not retried: when the first [k] calls meet empty-content responses
    and the next call raises [e], with [k] below [max_retries],
    [reliable_parse] raises [e] after exactly [k + 1] calls. *)
Theorem reliable_parse_standard_aborts client request_params (N k : nat) debug
    model_info w e :
  k < N →
  is_openrouter model_info = false →
  all_empty client k w →
  openai.parse client (calls w + k) request_params = Raise e →
  let r := reliable_parse client request_params (Some (Z.of_nat N)) debug
             model_info w in
  r.1 = Raise e ∧ calls r.2 = calls w + S k.
Proof.
  intros Hk Hor He Hraise r. subst r.
  unfold reliable_parse. rewrite Hor.
  change (default 3%Z (Some (Z.of_nat N))) with (Z.of_nat N).
  cbv zeta. rewrite Nat2Z.id.
  destruct (standard_loop_skip client (Z.of_nat N) request_params k
              (S (N - k)) 0%Z w He ltac:(lia)) as (wk & Hl & Hck & _).
  replace (S N) with (k + S (N - k)) by lia. rewrite Hl. simpl.
  replace (0 + Z.of_nat k <? Z.of_nat N)%Z with true
    by (symmetry; apply Z.ltb_lt; lia).
  rewrite Hck, Hraise. simpl. split; [done|lia].
Qed.

Lemma reliable_parse_standard_aborts_witness :
  0 < 3 ∧
  is_openrouter None = false ∧
  all_empty ex_failing_client 0 ex_world ∧
  openai.parse ex_failing_client (calls ex_world + 0) [] = Raise timeout_error ∧
  let r := reliable_parse ex_failing_client [] (Some (Z.of_nat 3)) false None
             ex_world in
  r.1 = Raise timeout_error ∧ calls r.2 = calls ex_world + 1.
Proof.
  assert (He : all_empty ex_failing_client 0 ex_world) by (intros i p Hi; lia).
  split; [lia|]. split; [reflexivity|]. split; [exact He|].
  split; [reflexivity|].
  apply (reliable_parse_standard_aborts ex_failing_client [] 3 0 false None
           ex_world timeout_error); [lia|reflexivity|exact He|reflexivity].
Defined.

(** X14: in the OpenRouter branch every failed attempt counts, whatever
    its kind: when each of the first N calls raises an [Exception] or
    answers with no choice or with empty content, [reliable_parse] with
    [max_retries = N] returns [None] after exactly N calls and raises
    nothing. *)
Theorem reliable_parse_openrouter_consumes_failures client request_params
    (N : nat) debug d w :
  is_openrouter (Some d) = true →
  truthy (openrouter_api_key d) = true →
  (∀ i params, i < N →
     attempt_fails (openai.parse client (calls w + i) params) = true) →
  let r := reliable_parse client request_params (Some (Z.of_nat N)) debug
             (Some d) w in
  r.1 = Ret None ∧ calls r.2 = calls w + N.
Proof.
  intros Hor Hkey Hf r. subst r.
  destruct (reliable_parse_openrouter client request_params
              (Some (Z.of_nat N)) debug d w Hor Hkey) as (w0 & Hc0 & _ & ->).
  change (default 3%Z (Some (Z.of_nat N))) with (Z.of_nat N).
  rewrite Nat2Z.id.
  destruct (openrouter_loop_skip client (Z.of_nat N)
              (merged_params request_params d) debug N 1 0%Z w0)
    as (wk & Hl & Hck & _).
  - intros i p Hi. rewrite Hc0. by apply Hf.
  - lia.
  - replace (S N) with (N + 1) by lia. rewrite Hl. simpl.
    replace (0 + Z.of_nat N <? Z.of_nat N)%Z with false
      by (symmetry; apply Z.ltb_ge; lia).
    simpl. split; [done|lia].
Qed.

Lemma reliable_parse_openrouter_consumes_failures_witness :
  is_openrouter (Some ex_openrouter_info) = true ∧
  truthy (openrouter_api_key ex_openrouter_info) = true ∧
  (∀ i params, i < 2 →
     attempt_fails (openai.parse ex_failing_client (calls ex_world + i) params)
     = true) ∧
  (∀ i params, i < 2 →
     attempt_fails (openai.parse ex_no_choice_client (calls ex_world + i) params)
     = true) ∧
  let r := reliable_parse ex_failing_client [] (Some (Z.of_nat 2)) false
             (Some ex_openrouter_info) ex_world in
  let r' := reliable_parse ex_no_choice_client [] (Some (Z.of_nat 2)) false
              (Some ex_openrouter_info) ex_world in
  (r.1 = Ret None ∧ calls r.2 = calls ex_world + 2) ∧
  (r'.1 = Ret None ∧ calls r'.2 = calls ex_world + 2).
Proof.
  split; [reflexivity|]. split; [reflexivity|].
  split; [intros; reflexivity|]. split; [intros; reflexivity|].
  split.
  - apply (reliable_parse_openrouter_consumes_failures ex_failing_client [] 2
             false ex_openrouter_info ex_world);
      [reflexivity|reflexivity|intros; reflexivity].
  - apply (reliable_parse_openrouter_consumes_failures ex_no_choice_client [] 2
             false ex_openrouter_info ex_world);
      [reflexivity|reflexivity|intros; reflexivity].
Defined.

(** The default branch on a response without choices: IndexError at the
    first call. *)
Example reliable_parse_standard_no_choice :
  let r := reliable_parse ex_no_choice_client [] (Some 3%Z) false None ex_world in
  r.1 = Raise {| exn_cls := IndexError; exn_str := "list index out of range" |} ∧
  calls r.2 = 1.
Proof. vm_compute. split; reflexivity. Qed.

Lemma dict_get_dict_set_ne d k v k' :
  k' ≠ k → dict_get (dict_set d k v) k' = dict_get d k'.
Proof.
  intros Hne. induction d as [|[k0 v0] d IH]; simpl.
  - destruct (String.eqb k k') eqn:E; [|done].
    apply String.eqb_eq in E. congruence.
  - destruct (String.eqb k0 k) eqn:E; simpl.
    + apply String.eqb_eq in E as ->.
      destruct (String.eqb k k') eqn:E'; [|done].
      apply String.eqb_eq in E'. congruence.
    + by destruct (String.eqb k0 k'); [|rewrite IH].
Qed.

Lemma dict_get_dict_set_eq d k v : dict_get (dict_set d k v) k = Some v.
Proof.
  induction d as [|[k0 v0] d IH]; simpl.
  - by rewrite String.eqb_refl.
  - destruct (String.eqb k0 k) eqn:E; simpl.
    + by rewrite String.eqb_refl.
    + by rewrite E.
Qed.

(** X15: the parameters the OpenRouter branch sends are the caller's
    parameters with at most two keys set: every key other than
    [extra_headers] and [extra_body] reads as in the request. *)
Theorem merged_params_keeps_request request_params d k :
  k ≠ "extra_headers" → k ≠ "extra_body" →
  dict_get (merged_params request_params d) k = dict_get request_params k.
Proof.
  intros H1 H2. unfold merged_params.
  destruct (extra_body d) as [|b bs], (extra_headers d) as [|h hs];
    rewrite ?dict_get_dict_set_ne by done; done.
Qed.

Lemma merged_params_keeps_request_witness :
  "model" ≠ "extra_headers" ∧ "model" ≠ "extra_body" ∧
  dict_get (merged_params [("model", PStr "vendor/model")]
              [("provider", PStr "openrouter");
               ("additional_kwargs", PDict [("reasoning", PStr "high")])])
    "model" = Some (PStr "vendor/model").
Proof.
  split; [discriminate|]. split; [discriminate|].
  rewrite merged_params_keeps_request by discriminate. reflexivity.
Defined.

(** ** The chat action *)

Lemma all_empty_same_calls client k w w' :
  calls w' = calls w → all_empty client k w → all_empty client k w'.
Proof. intros Hc He i params Hi. rewrite Hc. by apply He. Qed.

(** The invoker on [N] empty answers, with the world it leaves. *)
Lemma reliable_parse_exhausted client request_params (N : nat) debug model_info w :
  descriptor_ok model_info = true →
  all_empty client N w →
  ∃ w', reliable_parse client request_params (Some (Z.of_nat N)) debug
          model_info w = (Ret None, w') ∧
        calls w' = calls w + N ∧ heap w' = heap w.
Proof.
  intros Hok He. unfold descriptor_ok in Hok.
  destruct (is_openrouter model_info) eqn:Hor.
  - destruct model_info as [d|]; [|discriminate]. simpl in Hok.
    destruct (reliable_parse_openrouter client request_params
                (Some (Z.of_nat N)) debug d w Hor Hok) as (w0 & Hc0 & Hh0 & ->).
    change (default 3%Z (Some (Z.of_nat N))) with (Z.of_nat N).
    destruct (openrouter_loop_all_empty client (Z.of_nat N)
                (merged_params request_params d) debug N
                (S (Z.to_nat (Z.of_nat N))) 0%Z w0) as (w' & Hl & Hc & Hh);
      [lia|lia|by apply (all_empty_same_calls client N w)|].
    exists w'. split; [done|]. split; [lia|congruence].
  - unfold reliable_parse. rewrite Hor.
    change (default 3%Z (Some (Z.of_nat N))) with (Z.of_nat N). cbv zeta.
    destruct (standard_loop_all_empty client (Z.of_nat N) request_params N
                (S (Z.to_nat (Z.of_nat N))) 0%Z w) as (w' & Hl & Hc & Hh);
      [lia|lia|done|].
    by exists w'.
Qed.

(** X16: [chat_action] does not check for the invoker's [None]. When the
    model is found and its three calls all meet empty-content responses,
    the action raises AttributeError after the three calls; the prompt it
    appended stays in the message list, no reply is appended and nothing is
    saved. *)
Theorem chat_action_exhausted_retries
    prompt_template response_parser save_option model_name debug kwargs
    machine w prompt client info model :
  prompt_template kwargs = Ret prompt →
  find_client (clients machine) model_name = Ret (Some (client, info)) →
  dict_get info "model_name" = Some model →
  descriptor_ok (Some info) = true →
  all_empty client 3 w →
  messages machine < length (heap w) →
  ∃ w',
    chat_action prompt_template response_parser save_option model_name debug
      kwargs machine w =
      (raising AttributeError "'NoneType' object has no attribute 'choices'",
       machine, w') ∧
    calls w' = calls w + 3 ∧
    deref w' (messages machine) =
      deref w (messages machine) ++ [{| role := "user"; content := PStr prompt |}].
Proof.
  intros Hp Hfind Hmodel Hok He Hl. unfold chat_action.
  rewrite Hp, Hfind, Hmodel.
  set (wa := if debug then logging INFO (Text "Chat Action Prompt") w else w).
  assert (Hwa : calls wa = calls w ∧ heap wa = heap w)
    by (subst wa; by destruct debug).
  destruct Hwa as [Hca Hha].
  match goal with
  | |- context [reliable_parse ?c ?p ?m ?dbg ?mi ?w0] =>
      destruct (reliable_parse_exhausted c p 3 dbg mi w0 Hok) as (w' & Hr & Hc & Hh);
        [apply (all_empty_same_calls client 3 w); [simpl; exact Hca|exact He]|]
  end.
  change (Z.of_nat 3) with 3%Z in Hr. rewrite Hr.
  eexists. split; [reflexivity|]. simpl in Hc, Hh. split; [simpl; lia|].
  unfold deref at 1. simpl. rewrite Hh.
  unfold deref. rewrite Hha. by rewrite list_lookup_insert_eq.
Qed.

Lemma chat_action_exhausted_retries_witness :
  find_client (clients ex_chat_machine_empty) "m" =
    Ret (Some (ex_empty_client, [("name", PStr "m"); ("model_name", PStr "gpt")])) ∧
  all_empty ex_empty_client 3 ex_parent_world ∧
  messages ex_chat_machine_empty < length (heap ex_parent_world) ∧
  ∃ w',
    chat_action (fun _ => Ret "hi") None "both" "m" false [] ex_chat_machine_empty
      ex_parent_world =
      (raising AttributeError "'NoneType' object has no attribute 'choices'",
       ex_chat_machine_empty, w') ∧
    calls w' = calls ex_parent_world + 3 ∧
    deref w' (messages ex_chat_machine_empty) =
      deref ex_parent_world (messages ex_chat_machine_empty)
      ++ [{| role := "user"; content := PStr "hi" |}].
Proof.
  assert (He : all_empty ex_empty_client 3 ex_parent_world)
    by (intros i p Hi; eexists; split; reflexivity).
  split; [reflexivity|]. split; [exact He|]. split; [vm_compute; lia|].
  apply (chat_action_exhausted_retries (fun _ => Ret "hi") None "both" "m" false
           [] ex_chat_machine_empty ex_parent_world "hi" ex_empty_client
           [("name", PStr "m"); ("model_name", PStr "gpt")] (PStr "gpt"));
    [reflexivity|reflexivity|reflexivity|reflexivity|exact He|vm_compute; lia].
Defined.

(** X17: when no client carries the requested model name, [chat_action]
    raises ValueError without calling any provider, but only after it has
    appended the prompt to the message list: the prompt stays there. A
    machine built without clients is always in this case. *)
Theorem chat_action_unknown_model
    prompt_template response_parser save_option model_name debug kwargs
    machine w prompt :
  prompt_template kwargs = Ret prompt →
  find_client (clients machine) model_name = Ret None →
  messages machine < length (heap w) →
  ∃ w',
    chat_action prompt_template response_parser save_option model_name debug
      kwargs machine w =
      (raising ValueError "Model not found in initialized clients.", machine, w') ∧
    calls w' = calls w ∧
    deref w' (messages machine) =
      deref w (messages machine) ++ [{| role := "user"; content := PStr prompt |}] ∧
    find_client [] model_name = Ret None.
Proof.
  intros Hp Hfind Hl. unfold chat_action. rewrite Hp, Hfind.
  eexists. split; [reflexivity|].
  split; [by destruct debug|]. split; [|done].
  unfold deref at 1. simpl.
  assert (Hh : ∀ wa, heap wa = heap w →
            default [] (<[messages machine :=
                          deref wa (messages machine) ++
                          [{| role := "user"; content := PStr prompt |}]]>
                          (heap wa) !! messages machine)
            = deref w (messages machine) ++
              [{| role := "user"; content := PStr prompt |}]).
  { intros wa Hwa. unfold deref. rewrite Hwa.
    by rewrite list_lookup_insert_eq. }
  by destruct debug; apply Hh.
Qed.

Lemma chat_action_unknown_model_witness :
  find_client (clients ex_chat_machine_no_client) "m" = Ret None ∧
  messages ex_chat_machine_no_client < length (heap ex_parent_world) ∧
  ∃ w',
    chat_action (fun _ => Ret "hi") None "both" "m" false []
      ex_chat_machine_no_client ex_parent_world =
      (raising ValueError "Model not found in initialized clients.",
       ex_chat_machine_no_client, w') ∧
    calls w' = calls ex_parent_world ∧
    deref w' (messages ex_chat_machine_no_client) =
      deref ex_parent_world (messages ex_chat_machine_no_client)
      ++ [{| role := "user"; content := PStr "hi" |}] ∧
    find_client [] "m" = Ret None.
Proof.
  split; [reflexivity|]. split; [vm_compute; lia|].
  apply (chat_action_unknown_model (fun _ => Ret "hi") None "both" "m" false []
           ex_chat_machine_no_client ex_parent_world "hi");
    [reflexivity|reflexivity|vm_compute; lia].
Defined.

(** X18: when the model is found and its first call answers with content,
    [chat_action] issues that one call, appends the prompt and then the
    reply to the message list, and, for the four save options it knows,
    returns the parsed value if the reply has one and its text otherwise;
    the result log gains the prompt, the result, both, or nothing. Any
    other save option raises ValueError, after the call and the two
    appends. *)
Theorem chat_action_first_answer
    prompt_template response_parser save_option model_name debug kwargs
    machine w prompt client info model resp c cs :
  prompt_template kwargs = Ret prompt →
  find_client (clients machine) model_name = Ret (Some (client, info)) →
  dict_get info "model_name" = Some model →
  descriptor_ok (Some info) = true →
  (∀ params, openai.parse client (calls w) params = Ret resp) →
  openai.choices resp = c :: cs →
  str_falsy (openai.content (openai.message c)) = false →
  messages machine < length (heap w) →
  let parsed_result :=
    match openai.parsed (openai.message c) with
    | Some v => v
    | None => opt_str (openai.content (openai.message c))
    end in
  ∃ w',
    calls w' = calls w + 1 ∧
    deref w' (messages machine) =
      deref w (messages machine)
      ++ [{| role := "user"; content := PStr prompt |};
          {| role := "assistant";
             content := opt_str (openai.content (openai.message c)) |}] ∧
    chat_action prompt_template response_parser save_option model_name debug
      kwargs machine w =
      if String.eqb save_option "prompt" then
        (Ret parsed_result, analysis_result_append (PStr prompt) machine, w')
      else if String.eqb save_option "result" then
        (Ret parsed_result, analysis_result_append parsed_result machine, w')
      else if String.eqb save_option "both" then
        (Ret parsed_result,
         analysis_result_append
           (PDict [("prompt", PStr prompt); ("result", parsed_result)]) machine, w')
      else if String.eqb save_option "none" then (Ret parsed_result, machine, w')
      else (Raise invalid_save_option, machine, w').
Proof.
  intros Hp Hfind Hmodel Hok Hresp Hc Hf Hl parsed_result.
  unfold chat_action. rewrite Hp, Hfind, Hmodel.
  set (wa := if debug then logging INFO (Text "Chat Action Prompt") w else w).
  assert (Hwa : calls wa = calls w ∧ heap wa = heap w)
    by (subst wa; by destruct debug).
  destruct Hwa as [Hca Hha].
  assert (Hcont : has_content resp) by (by exists c, cs).
  match goal with
  | |- context [reliable_parse ?cl ?p ?m ?dbg ?mi ?w0] =>
      pose proof (reliable_parse_first_success cl p 3 0 dbg mi w0 resp
                    ltac:(lia) Hok ltac:(intros i q Hi; lia)
                    ltac:(intros q; simpl; rewrite Hca, Nat.add_0_r; apply Hresp)
                    Hcont) as [Hr1 Hr2];
      pose proof (reliable_parse_heap cl p m dbg mi w0) as Hh;
      change (Z.of_nat 3) with 3%Z in Hr1, Hr2;
      destruct (reliable_parse cl p m dbg mi w0) as [r wr] eqn:Hr
  end.
  cbn [fst snd] in Hr1, Hr2, Hh. subst r. rewrite Hc.
  eexists. split; [|split; [|reflexivity]].
  - simpl. simpl in Hr2. lia.
  - simpl in Hh. unfold deref at 1. simpl.
    rewrite Hh. rewrite list_lookup_insert_eq
      by (rewrite length_insert; congruence).
    simpl. unfold deref at 1. simpl. rewrite Hh.
    rewrite list_lookup_insert_eq by congruence. simpl.
    unfold deref. rewrite Hha. by rewrite <- app_assoc.
Qed.

Lemma chat_action_first_answer_witness :
  ∃ w',
    calls w' = calls ex_parent_world + 1 ∧
    deref w' (messages ex_chat_machine) =
      deref ex_parent_world (messages ex_chat_machine)
      ++ [{| role := "user"; content := PStr "hi" |};
          {| role := "assistant"; content := PStr "ok" |}] ∧
    chat_action (fun _ => Ret "hi") None "both" "m" false [] ex_chat_machine
      ex_parent_world =
      (Ret (PStr "ok"),
       analysis_result_append
         (PDict [("prompt", PStr "hi"); ("result", PStr "ok")]) ex_chat_machine,
       w').
Proof.
  destruct (chat_action_first_answer (fun _ => Ret "hi") None "both" "m" false []
              ex_chat_machine ex_parent_world "hi" ex_text_client
              [("name", PStr "m"); ("model_name", PStr "gpt")] (PStr "gpt")
              ex_text_response
              {| openai.message := {| openai.content := Some "ok";
                                      openai.parsed := None |} |} [])
    as (w' & H1 & H2 & H3);
    [reflexivity|reflexivity|reflexivity|reflexivity|reflexivity|reflexivity
    |reflexivity|vm_compute; lia|].
  exists w'. split; [exact H1|]. split; [exact H2|]. exact H3.
Defined.

(** ** The sub-machine composer *)

(** X19: when the child's context carries the parent's own message list
    and the child leaves its [messages] bound to it, the merge extends that
    list by itself: after the composer the list holds, twice over, what it
    held when the child's [process] returned. *)
Theorem sub_state_machine_action_shared_list
    env fuel defs init cls save_option kwargs machine w
    sub_context w1 sub_machine w2 sub_result sub_machine' w3 :
  cls kwargs w = (Ret sub_context, w1) →
  ctx_messages sub_context = Some (messages machine) →
  StateMachine__init__ env sub_context defs init
    (config_path (config machine)) w1 = (Ret sub_machine, w2) →
  process fuel sub_machine w2 = (Ret sub_result, sub_machine', w3) →
  messages (data sub_machine') = messages (data sub_machine) →
  messages machine < length (heap w3) →
  let r := sub_state_machine_action env fuel defs init cls save_option
             kwargs machine w in
  deref r.2 (messages machine) =
    deref w3 (messages machine) ++ deref w3 (messages machine).
Proof.
  intros Hc Hctx Hi Hp Hkeep Hl r. subst r.
  destruct (StateMachine__init___returned _ _ _ _ _ _ _ _ Hi)
    as (cfg & cl & w1' & _ & _ & _ & _ & Hmsg).
  rewrite Hctx in Hmsg. inversion Hmsg as [[Hm Hw]].
  rewrite (sub_state_machine_action_returned _ _ _ _ _ save_option _ _ _ _ _ _ _ _ _ _
             Hc Hi Hp).
  assert (Hd : deref (list_extend (messages machine)
                        (messages (data sub_machine')) w3) (messages machine) =
               deref w3 (messages machine) ++ deref w3 (messages machine)).
  { rewrite deref_list_extend_eq by done. by rewrite Hkeep, Hm. }
  repeat case_match; simpl; rewrite ?Hm; exact Hd.
Qed.

Lemma sub_state_machine_action_shared_list_witness :
  ∃ sub_machine sub_machine' w3,
    ex_sharing_context [] ex_parent_world =
      (Ret {| ctx_self := PObj 4; ctx_messages := Some 0 |}, ex_parent_world) ∧
    StateMachine__init__ ex_env {| ctx_self := PObj 4; ctx_messages := Some 0 |}
      ex_child "Work" (config_path (config ex_parent)) ex_parent_world =
      (Ret sub_machine, ex_parent_world) ∧
    process 10 sub_machine ex_parent_world = (Ret (PStr "done"), sub_machine', w3) ∧
    deref w3 0 = [msg_x; msg_a; msg_b] ∧
    let r := sub_state_machine_action ex_env 10 ex_child "Work"
               ex_sharing_context "result" [] ex_parent ex_parent_world in
    deref r.2 (messages ex_parent) =
      [msg_x; msg_a; msg_b; msg_x; msg_a; msg_b].
Proof.
  eexists _, _, _.
  split; [reflexivity|].
  split; [vm_compute; reflexivity|].
  split; [vm_compute; reflexivity|].
  split; [vm_compute; reflexivity|].
  intros r. subst r.
  eapply eq_trans.
  - eapply (sub_state_machine_action_shared_list ex_env 10 ex_child "Work"
              ex_sharing_context "result" [] ex_parent ex_parent_world).
    + reflexivity.
    + reflexivity.
    + vm_compute; reflexivity.
    + vm_compute; reflexivity.
    + reflexivity.
    + vm_compute; lia.
  - vm_compute; reflexivity.
Defined.

(** X20: the composer never copies the child's result log. Once the
    child's [process] has returned, the parent's result log is what it was,
    followed by one record for the options prompt (the child's context),
    result (the child's result) and both (the pair), and by nothing for any
    other option; the parent's agent results are untouched. *)
Theorem sub_state_machine_action_result_log
    env fuel defs init cls save_option kwargs machine w
    sub_context w1 sub_machine w2 sub_result sub_machine' w3 :
  cls kwargs w = (Ret sub_context, w1) →
  StateMachine__init__ env sub_context defs init
    (config_path (config machine)) w1 = (Ret sub_machine, w2) →
  process fuel sub_machine w2 = (Ret sub_result, sub_machine', w3) →
  let r := sub_state_machine_action env fuel defs init cls save_option
             kwargs machine w in
  analysis_result r.1.2 =
    analysis_result machine ++
    (if String.eqb save_option "prompt" then [ctx_self sub_context]
     else if String.eqb save_option "result" then [sub_result]
     else if String.eqb save_option "both" then
       [PDict [("context", ctx_self sub_context); ("result", sub_result)]]
     else []) ∧
  agent_results r.1.2 = agent_results machine.
Proof.
  intros Hc Hi Hp r. subst r.
  rewrite (sub_state_machine_action_returned _ _ _ _ _ save_option _ _ _ _ _ _ _ _ _ _
             Hc Hi Hp).
  repeat case_match; simpl; by rewrite ?app_nil_r.
Qed.

Lemma sub_state_machine_action_result_log_witness :
  ∃ sub_machine sub_machine' w3,
    StateMachine__init__ ex_env {| ctx_self := PObj 2; ctx_messages := None |}
      ex_child_logging "Work" (config_path (config ex_parent_with_results))
      ex_parent_world = (Ret sub_machine, {| heap := [[msg_x]; []]; log := [];
                                             calls := 0 |}) ∧
    process 10 sub_machine {| heap := [[msg_x]; []]; log := []; calls := 0 |} =
      (Ret (PStr "done"), sub_machine', w3) ∧
    analysis_result (data sub_machine') = [PStr "inner"] ∧
    let r := sub_state_machine_action ex_env 10 ex_child_logging "Work"
               ex_child_context "result" [] ex_parent_with_results
               ex_parent_world in
    analysis_result r.1.2 = [PStr "earlier"; PStr "done"] ∧
    agent_results r.1.2 = [].
Proof.
  eexists _, _, _.
  split; [vm_compute; reflexivity|].
  split; [vm_compute; reflexivity|].
  split; [vm_compute; reflexivity|].
  eapply (sub_state_machine_action_result_log ex_env 10 ex_child_logging "Work"
           ex_child_context "result" [] ex_parent_with_results ex_parent_world
           {| ctx_self := PObj 2; ctx_messages := None |} ex_parent_world).
  - reflexivity.
  - vm_compute; reflexivity.
  - vm_compute; reflexivity.
Defined.

Lemma process_state_raises_ordinary
    m w n m1 p extra w1 nm action_func next_state_func e d w2 fuel :
  reaches m w n m1 p extra w1 →
  state m1 = Some (BaseState nm action_func next_state_func) →
  invoke action_func extra (data m1) w1 = (Raise e, d, w2) ∨
  (∃ result d1 w1',
     invoke action_func extra (data m1) w1 = (Ret result, d1, w1') ∧
     call_transition next_state_func result d1 w1' = (Raise e, d, w2)) →
  isinstance_Exception e = true → is_usage_limit e = false →
  n < fuel →
  ∃ w3, process fuel m w = (Ret PNone, with_data m1 d, w3) ∧ heap w3 = heap w2.
Proof.
  intros Hr Hst Hraise Hex Hul Hlt.
  rewrite (process_from_reached _ _ _ _ _ _ _ _ Hr Hlt).
  destruct (fuel - n) as [|k] eqn:Hk; [lia|].
  rewrite (process_loop_raised _ _ _ _ _ _ _ _
             (state_raises_try_body _ p _ _ _ _ _ _ _ _ Hst Hraise)).
  rewrite except_clauses_ordinary by done. by eexists.
Qed.

(** X21: an ordinary failure inside the child does not stop the parent's
    action. When the child's run reaches a state whose action or
    transition raises an [Exception] other than the usage limit, the
    child's [process] returns [None], and the composer, for the save
    options prompt, result and both, merges the child's account and returns
    [None] as the action's result. *)
Theorem sub_state_machine_action_child_fails
    env fuel defs init cls save_option kwargs machine w
    sub_context w1 sub_machine w2 n m1 p extra w1' nm action_func
    next_state_func e d w2' :
  cls kwargs w = (Ret sub_context, w1) →
  StateMachine__init__ env sub_context defs init
    (config_path (config machine)) w1 = (Ret sub_machine, w2) →
  reaches sub_machine w2 n m1 p extra w1' →
  state m1 = Some (BaseState nm action_func next_state_func) →
  invoke action_func extra (data m1) w1' = (Raise e, d, w2') ∨
  (∃ result d1 w,
     invoke action_func extra (data m1) w1' = (Ret result, d1, w) ∧
     call_transition next_state_func result d1 w = (Raise e, d, w2')) →
  isinstance_Exception e = true → is_usage_limit e = false →
  n < fuel →
  save_option ∈ ["prompt"; "result"; "both"] →
  let r := sub_state_machine_action env fuel defs init cls save_option
             kwargs machine w in
  r.1.1 = Ret PNone ∧
  total_input_tokens r.1.2 = (total_input_tokens machine + total_input_tokens d)%Z ∧
  total_output_tokens r.1.2 = (total_output_tokens machine + total_output_tokens d)%Z.
Proof.
  intros Hc Hi Hr Hst Hraise Hex Hul Hlt Hopt r. subst r.
  destruct (process_state_raises_ordinary _ _ _ _ _ _ _ _ _ _ _ _ _ _
              Hr Hst Hraise Hex Hul Hlt) as (w3 & Hp & _).
  rewrite (sub_state_machine_action_returned _ _ _ _ _ save_option _ _ _ _ _ _ _ _ _ _
             Hc Hi Hp).
  repeat (apply elem_of_cons in Hopt as [->|Hopt]; [by simpl|]).
  by apply elem_of_nil in Hopt.
Qed.

Lemma sub_state_machine_action_child_fails_witness :
  ∃ sub_machine w2 m1,
    StateMachine__init__ ex_env {| ctx_self := PObj 2; ctx_messages := None |}
      ex_A_then_failing_B "A" (config_path (config ex_parent)) ex_parent_world
      = (Ret sub_machine, w2) ∧
    reaches sub_machine w2 1 m1 (PInt 1) (PDict []) w2 ∧
    state_name m1 = "B" ∧
    isinstance_Exception boom = true ∧ is_usage_limit boom = false ∧
    "result" ∈ ["prompt"; "result"; "both"] ∧
    let r := sub_state_machine_action ex_env 10 ex_A_then_failing_B "A"
               ex_child_context "result" [] ex_parent ex_parent_world in
    r.1.1 = Ret PNone ∧
    total_input_tokens r.1.2 =
      (total_input_tokens ex_parent + total_input_tokens (data m1))%Z ∧
    total_output_tokens r.1.2 =
      (total_output_tokens ex_parent + total_output_tokens (data m1))%Z.
Proof.
  eexists _, _, _.
  split; [vm_compute; reflexivity|].
  split; [vm_compute; reflexivity|].
  split; [reflexivity|].
  split; [reflexivity|]. split; [reflexivity|].
  split; [right; left|].
  eapply (sub_state_machine_action_child_fails ex_env 10 ex_A_then_failing_B "A"
            ex_child_context "result" [] ex_parent ex_parent_world
            _ _ _ _ 1 _ (PInt 1) (PDict []) _ "B" (raising_action boom)
            (always (PStr "Exit")) boom).
  - reflexivity.
  - vm_compute; reflexivity.
  - vm_compute; reflexivity.
  - reflexivity.
  - left; reflexivity.
  - reflexivity.
  - reflexivity.
  - lia.
  - right; left.
Defined.

(** X22: when the child's initial state is not a key of the child's
    registry, the composer raises the constructor's ValueError: the child
    never runs, the parent's fields are returned unchanged and the parent's
    message list is not extended. *)
Theorem sub_state_machine_action_unknown_initial_state
    env fuel defs init cls save_option kwargs machine w sub_context w1 c cl w2 :
  cls kwargs w = (Ret sub_context, w1) →
  load_environment env (config_path (config machine)) w1 = (Ret (c, cl), w2) →
  actions_present defs →
  init ∉ defs.*1 →
  ∃ w3,
    sub_state_machine_action env fuel defs init cls save_option kwargs machine w
      = (Raise initial_state_error, machine, w3) ∧
    ∀ l, l < length (heap w2) → deref w3 l = deref w2 l.
Proof.
  intros Hc Henv Hact Hnin. unfold sub_state_machine_action. rewrite Hc.
  destruct (_create_states_loop_total defs ∅ Hact) as [sts Hsts].
  pose proof (proj2 (_create_states_dom defs sts init Hsts) Hnin) as Hnone.
  unfold StateMachine__init__. rewrite Henv.
  fold (_create_states defs) in Hsts.
  destruct (ctx_messages sub_context) as [l0|]; simpl; rewrite Hsts, Hnone.
  - by exists w2.
  - eexists. split; [reflexivity|].
    intros l Hl. unfold deref. simpl. by rewrite lookup_app_l.
Qed.

Lemma sub_state_machine_action_unknown_initial_state_witness :
  actions_present ex_child ∧
  ("Missing" ∉ ex_child.*1) ∧
  ∃ w3,
    sub_state_machine_action ex_env 10 ex_child "Missing" ex_child_context
      "result" [] ex_parent ex_parent_world =
      (Raise initial_state_error, ex_parent, w3) ∧
    ∀ l, l < length (heap ex_parent_world) → deref w3 l = deref ex_parent_world l.
Proof.
  assert (Hact : actions_present ex_child).
  { intros nm cfg Hin Hne.
    apply elem_of_cons in Hin as [Hin|Hin]; [inversion Hin; subst; by eexists|].
    apply list_elem_of_singleton in Hin. inversion Hin; subst. done. }
  assert (Hnin : "Missing" ∉ ex_child.*1).
  { vm_compute. intros Hin.
    repeat (apply elem_of_cons in Hin as [Hin|Hin]; [discriminate|]).
    by apply elem_of_nil in Hin. }
  split; [exact Hact|]. split; [exact Hnin|].
  eapply (sub_state_machine_action_unknown_initial_state ex_env 10 ex_child
            "Missing" ex_child_context "result" [] ex_parent ex_parent_world);
    [reflexivity|reflexivity|exact Hact|exact Hnin].
Defined.
